(** * Tour availability checker (tours.py): model and verified properties

    The development embeds [tours.py] shallowly.  Calendar values are the
    [datetime] objects of the Python standard library restricted to
    midnight (the only values [valid_date] produces); HTTP traffic and
    printed output are threaded through an explicit state-and-exception
    monad; the JSON bodies of the two recreation.gov endpoints are typed
    records whose fields may be absent.  Calls to the logger write to
    the log, not to the standard output, and are left out. *)

From Stdlib Require Import ZArith Lia List Bool Ascii String Sorted.
From stdpp Require Import gmap strings pretty.

Local Open Scope string_scope.
Local Open Scope list_scope.
Local Open Scope Z_scope.

(** ** Calendar arithmetic of [datetime]

    [tours.py] uses [datetime] construction, comparison, subtraction,
    addition of a [timedelta] of whole days and [strftime].  The
    definitions below follow the pure-Python implementation of the
    [datetime] module function by function: [_is_leap],
    [_days_before_year], [_days_in_month], [_days_before_month],
    [_ymd2ord], [_ord2ymd], [toordinal] and the tuple comparison
    [_cmp].  Hours, minutes and seconds are zero throughout. *)

Module Calendar.

Record datetime := mk_datetime { year : Z; month : Z; day : Z }.

Definition MINYEAR : Z := 1.
Definition MAXYEAR : Z := 9999.
Definition MAXORDINAL : Z := 3652059.

Definition is_leap (y : Z) : bool :=
  (y mod 4 =? 0) && (negb (y mod 100 =? 0) || (y mod 400 =? 0)).

Definition DAYS_IN_MONTH (m : Z) : Z :=
  match m with
  | 1 => 31 | 2 => 28 | 3 => 31 | 4 => 30 | 5 => 31 | 6 => 30
  | 7 => 31 | 8 => 31 | 9 => 30 | 10 => 31 | 11 => 30 | 12 => 31
  | _ => -1
  end.

Definition DAYS_BEFORE_MONTH (m : Z) : Z :=
  match m with
  | 1 => 0 | 2 => 31 | 3 => 59 | 4 => 90 | 5 => 120 | 6 => 151
  | 7 => 181 | 8 => 212 | 9 => 243 | 10 => 273 | 11 => 304 | 12 => 334
  | _ => -1
  end.

Definition days_before_year (y : Z) : Z :=
  let y' := y - 1 in y' * 365 + y' / 4 - y' / 100 + y' / 400.

Definition days_in_month (y m : Z) : Z :=
  if (m =? 2) && is_leap y then 29 else DAYS_IN_MONTH m.

Definition days_before_month (y m : Z) : Z :=
  DAYS_BEFORE_MONTH m + (if (2 <? m) && is_leap y then 1 else 0).

Definition ymd2ord (y m d : Z) : Z :=
  days_before_year y + days_before_month y m + d.

Definition DI400Y : Z := 146097.
Definition DI100Y : Z := 36524.
Definition DI4Y : Z := 1461.

Definition ord2ymd (n : Z) : datetime :=
  let n := n - 1 in
  let n400 := n / DI400Y in
  let n := n mod DI400Y in
  let y := n400 * 400 + 1 in
  let n100 := n / DI100Y in
  let n := n mod DI100Y in
  let n4 := n / DI4Y in
  let n := n mod DI4Y in
  let n1 := n / 365 in
  let n := n mod 365 in
  let y := y + (n100 * 100 + n4 * 4 + n1) in
  if (n1 =? 4) || (n100 =? 4) then mk_datetime (y - 1) 12 31
  else
    let leapyear := (n1 =? 3) && (negb (n4 =? 24) || (n100 =? 3)) in
    let m := Z.shiftr (n + 50) 5 in
    let preceding :=
      DAYS_BEFORE_MONTH m + (if (2 <? m) && leapyear then 1 else 0) in
    if n <? preceding then
      let m := m - 1 in
      let preceding :=
        preceding - (DAYS_IN_MONTH m + (if (m =? 2) && leapyear then 1 else 0)) in
      mk_datetime y m (n - preceding + 1)
    else mk_datetime y m (n - preceding + 1).

(** The values the [datetime] constructor accepts (it raises
    [ValueError] on anything else). *)
Definition valid (d : datetime) : Prop :=
  MINYEAR <= year d <= MAXYEAR /\ 1 <= month d <= 12 /\
  1 <= day d <= days_in_month (year d) (month d).

Definition toordinal (d : datetime) : Z := ymd2ord (year d) (month d) (day d).

(** Comparison of two [datetime]s is the lexicographic comparison of
    their field tuples. *)
Definition cmp (a b : datetime) : comparison :=
  match year a ?= year b with
  | Eq => match month a ?= month b with
          | Eq => day a ?= day b
          | c => c
          end
  | c => c
  end.

Definition dt_lt (a b : datetime) : Prop := cmp a b = Lt.
Definition dt_le (a b : datetime) : Prop := cmp a b <> Gt.
Definition dt_gtb (a b : datetime) : bool :=
  match cmp a b with Gt => true | _ => false end.

(** [(a - b).days] for two midnight values. *)
Definition sub_days (a b : datetime) : Z := toordinal a - toordinal b.

End Calendar.

Import Calendar.

(** ** Exceptions, results and the world *)

Inductive exn :=
| RuntimeError (kind msg : string)
| KeyError (key : string)
| OverflowError (msg : string).

Inductive result (A : Type) :=
| Ok (a : A)
| Raise (e : exn).
Arguments Ok {A} a.
Arguments Raise {A} e.

(** A query parameter is an integer or a string. *)
Inductive param := PInt (z : Z) | PStr (s : string).

Record request := mk_request {
  url : string;
  params : list (string * param)
}.

(** Decoded JSON bodies.  A day of the monthly view maps tour ids (as
    strings) to their summary; the top-level object carries the key of
    the endpoint that produced it, and lacks the other one.  Below the
    top level the bodies are taken in the shape the service gives them:
    every day entry holds its per-tour mapping and every tour entry its
    boolean flag.  A body that lacks one of these nested fields, on
    which the code raises [KeyError] for the field, is outside the
    model. *)
Record tour_summary := mk_tour_summary { has_reservable : bool }.

Record day_summary := mk_day_summary {
  tour_availability_summary_view_by_tour_id : gmap string tour_summary
}.

Record json := mk_json {
  facility_availability_summary_view_by_local_date :
    option (gmap string day_summary);
  tour_name : option string
}.

Record response := mk_response {
  status_code : Z;
  text : string;
  body : json
}.

(** Requests sent so far and lines printed so far, oldest first. *)
Record world := mk_world {
  sent : list request;
  stdout : list string
}.

Definition M (A : Type) : Type := world -> result A * world.

Definition ret {A} (a : A) : M A := fun w => (Ok a, w).

Definition bind {A B} (c : M A) (k : A -> M B) : M B :=
  fun w =>
    match c w with
    | (Ok a, w') => k a w'
    | (Raise e, w') => (Raise e, w')
    end.

Notation "'let*' x := c 'in' k" := (bind c (fun x => k))
  (at level 10, x name, c at level 200, k at level 200, only parsing).

Definition lift {A} (r : result A) : M A := fun w => (r, w).

Definition print (line : string) : M unit :=
  fun w => (Ok tt, mk_world (sent w) (stdout w ++ [line])).

(** A [for] loop threading an accumulator. *)
Fixpoint for_each {A S} (f : S -> A -> M S) (l : list A) (s : S) : M S :=
  match l with
  | [] => ret s
  | x :: l' => let* s' := f s x in for_each f l' s'
  end.

(** A list comprehension whose element expression may raise. *)
Fixpoint comprehension {A B} (f : A -> result B) (l : list A) : result (list B) :=
  match l with
  | [] => Ok []
  | x :: l' =>
      match f x with
      | Raise e => Raise e
      | Ok y =>
          match comprehension f l' with
          | Raise e => Raise e
          | Ok ys => Ok (y :: ys)
          end
      end
  end.

(** ** Python values used by the program *)

(** [str] of an integer. *)
Definition str (z : Z) : string := pretty z.

Definition newline : string := String (ascii_of_nat 10) EmptyString.

Definition digit (n : Z) : ascii := ascii_of_nat (48 + Z.to_nat n).

Definition zpad2 (n : Z) : string :=
  String (digit (n / 10)) (String (digit (n mod 10)) EmptyString).

Definition zpad4 (n : Z) : string := zpad2 (n / 100) +:+ zpad2 (n mod 100).

(** [datetime.strftime(d, INPUT_DATE_FORMAT)] with
    [INPUT_DATE_FORMAT = "%Y-%m-%d"].  CPython hands the format to the C
    library, and glibc prints [%Y] as the plain decimal year, without
    padding: a year below 1000 comes out on fewer than four digits
    ([999-12-31]).  Month and day are on two digits. *)
Definition strftime (d : datetime) : string :=
  str (year d) +:+ "-" +:+ zpad2 (month d) +:+ "-" +:+ zpad2 (day d).

(** [d + timedelta(days=x)]: through the ordinal, [OverflowError]
    outside [1 .. MAXORDINAL]. *)
Definition add_days (d : datetime) (x : Z) : result datetime :=
  let o := toordinal d + x in
  if (0 <? o) && (o <=? MAXORDINAL) then Ok (ord2ymd o)
  else Raise (OverflowError "result out of range").

(** [range(n)]. *)
Definition range (n : Z) : list Z := seqZ 0 n.

(** [rrule(MONTHLY, dtstart=datetime(y, m, 1), until=until)] of
    [dateutil]: the first of each month, stepping one month at a time
    (month 13 wraps to month 1 of the next year), while the candidate is
    not after [until] and the year does not exceed [MAXYEAR].  The
    recursion is on a bound that [12 * MAXYEAR] months never reach. *)
Fixpoint rrule_monthly (fuel : nat) (y m : Z) (until : datetime) : list datetime :=
  match fuel with
  | O => []
  | S fuel' =>
      if dt_gtb (mk_datetime y m 1) until then []
      else
        mk_datetime y m 1 ::
        (let m' := m + 1 in
         if 12 <? m' then
           let y' := y + m' / 12 in
           let m' := m' mod 12 in
           if MAXYEAR <? y' then [] else rrule_monthly fuel' y' m' until
         else rrule_monthly fuel' y m' until)
  end.

Definition rrule_MONTHLY (dtstart until : datetime) : list datetime :=
  rrule_monthly (Z.to_nat (12 * MAXYEAR)) (year dtstart) (month dtstart) until.

(** Insertion-ordered dictionaries with integer keys, as [dict] keeps
    them: assigning to an existing key keeps its position. *)
Definition dict := list (Z * list string).

Fixpoint dict_get (k : Z) (d : dict) : option (list string) :=
  match d with
  | [] => None
  | (k', v) :: d' => if k' =? k then Some v else dict_get k d'
  end.

Fixpoint dict_set (k : Z) (v : list string) (d : dict) : dict :=
  match d with
  | [] => [(k, v)]
  | (k', v') :: d' => if k' =? k then (k, v) :: d' else (k', v') :: dict_set k v d'
  end.

(** [d[k].append(x)]. *)
Definition dict_append (k : Z) (x : string) (d : dict) : result dict :=
  match dict_get k d with
  | Some v => Ok (dict_set k (v ++ [x]) d)
  | None => Raise (KeyError (str k))
  end.

(** Subscripting a string-keyed mapping. *)
Definition getitem {V} (m : gmap string V) (k : string) : result V :=
  match m !! k with
  | Some v => Ok v
  | None => Raise (KeyError k)
  end.

Definition getfield {V} (field : option V) (k : string) : result V :=
  match field with
  | Some v => Ok v
  | None => Raise (KeyError k)
  end.

(** ** The program *)

Definition BASE_URL : string := "https://www.recreation.gov".
Definition AVAILABILITY_ENDPOINT : string := "/api/ticket/availability/facility/".
Definition MAIN_PAGE_ENDPOINT : string := "/api/ticket/tour/".

(** The text printed when a tour is absent from a day of the snapshot. *)
Definition not_found_message (tour_id facility_id : Z) (date_formatted : string) : string :=
  "Tour id " +:+ str tour_id +:+ " not found in facility with id "
  +:+ str facility_id +:+ " on " +:+ date_formatted.

Section Program.

(** The upstream service: what [requests.get] answers to each request.
    The [User-Agent] header is one module-level value shared by all
    requests and is left implicit. *)
Variable server : request -> response.

Definition send_request (url : string) (params : list (string * param)) : M json :=
  fun w =>
    let resp := server (mk_request url params) in
    let w' := mk_world (sent w ++ [mk_request url params]) (stdout w) in
    if negb (status_code resp =? 200) then
      (Raise (RuntimeError "failedRequest"
                ("ERROR, " +:+ str (status_code resp) +:+ " code received from "
                 +:+ url +:+ ": " +:+ text resp)), w')
    else (Ok (body resp), w').

(** Body of the loop over [months] (lines 63-72). *)
Definition fetch_month (facility_id : Z) (api_data : gmap string day_summary)
    (month_date : datetime) : M (gmap string day_summary) :=
  let params := [("year", PInt (year month_date));
                 ("month", PInt (month month_date));
                 ("inventoryBucket", PStr "FIT")] in
  let url := BASE_URL +:+ AVAILABILITY_ENDPOINT +:+ str facility_id
             +:+ "/monthlyAvailabilitySummaryView?" in
  let* resp := send_request url params in
  let* view := lift (getfield (facility_availability_summary_view_by_local_date resp)
                     "facility_availability_summary_view_by_local_date") in
  ret (view ∪ api_data).

(** Body of the loop over [desired_dates] (lines 80-86). *)
Definition check_date (facility_id tour_id : Z) (api_data : gmap string day_summary)
    (availabilities : dict) (date : datetime) : M dict :=
  let date_formatted := strftime date in
  let* day := lift (getitem api_data date_formatted) in
  match tour_availability_summary_view_by_tour_id day !! str tour_id with
  | None =>
      let* _ := print (not_found_message tour_id facility_id date_formatted) in
      ret availabilities
  | Some summary =>
      if has_reservable summary
      then lift (dict_append tour_id date_formatted availabilities)
      else ret availabilities
  end.

(** Body of the loop over [tour_ids] (lines 78-86). *)
Definition check_tour (facility_id : Z) (api_data : gmap string day_summary)
    (desired_dates : list datetime) (availabilities : dict) (tour_id : Z) : M dict :=
  for_each (check_date facility_id tour_id api_data) desired_dates
    (dict_set tour_id [] availabilities).

Definition desired_dates (start_date end_date : datetime) : result (list datetime) :=
  comprehension (fun x => add_days start_date x)
    (range (sub_days end_date start_date + 1)).

Definition months_of (start_date end_date : datetime) : list datetime :=
  let start_of_month := mk_datetime (year start_date) (month start_date) 1 in
  rrule_MONTHLY start_of_month end_date.

Definition get_tour_availabilities (facility_id : Z) (tour_ids : list Z)
    (start_date end_date : datetime) : M dict :=
  let months := months_of start_date end_date in
  let* api_data := for_each (fetch_month facility_id) months ∅ in
  let* dates := lift (desired_dates start_date end_date) in
  for_each (check_tour facility_id api_data dates) tour_ids [].

Definition get_tour_name (tour_id : Z) : M string :=
  let url := BASE_URL +:+ MAIN_PAGE_ENDPOINT +:+ str tour_id in
  let* resp := send_request url [] in
  lift (getfield (tour_name resp) "tour_name").

(** The line printed for one tour once its name is known. *)
Definition report_line (name : string) (dates : list string) : string :=
  match dates with
  | [] => name +:+ ": No availabilities :("
  | _ => name +:+ ": Available on the following date(s):" +:+ newline
         +:+ String.concat ", " dates
  end.

Definition print_tour (_ : unit) (item : Z * list string) : M unit :=
  let '(tour_id, dates) := item in
  let* name := get_tour_name tour_id in
  print (report_line name dates).

Definition print_human_readable (availabilities : dict) : M unit :=
  for_each print_tour availabilities tt.

(** [any(availabilities.values())]: some list is non-empty. *)
Definition any_values (availabilities : dict) : bool :=
  existsb (fun item => match snd item with [] => false | _ => true end) availabilities.

Definition main (facility : Z) (tours : list Z) (start_date end_date : datetime) : M Z :=
  let* availabilities := get_tour_availabilities facility tours start_date end_date in
  let* _ := print_human_readable availabilities in
  if any_values availabilities then ret 0 else ret 1.

(** How the process ends: [sys.exit(code)], or an exception that
    reaches the interpreter. *)
Inductive outcome :=
| Exit (code : Z)
| Uncaught (e : exn).

(** The [try] block of the script (lines 158-164), for a run given
    [--tours]: [tours] is the list [argparse] builds from it.  A run
    without [--tours], where [args.tours] is [None] and line 78 raises
    [TypeError], is outside the model. *)
Definition script (facility : Z) (tours : list Z) (start_date end_date : datetime)
    (w : world) : outcome * world :=
  match main facility tours start_date end_date w with
  | (Ok code, w') => (Exit code, w')
  | (Raise e, w') =>
      (Uncaught e, mk_world (sent w') (stdout w' ++ ["Something went wrong"]))
  end.

(** The status the operating system sees; the interpreter reports an
    uncaught exception as 1. *)
Definition exit_status (o : outcome) : Z :=
  match o with
  | Exit code => code
  | Uncaught _ => 1
  end.

End Program.

(** ** Dates on the command line (lines 118-123)

    [datetime.strptime(s, "%Y-%m-%d")] compiles the format to the
    regular expression

      (?P<Y>\d\d\d\d)\-(?P<m>1[0-2]|0[1-9]|[1-9])\-(?P<d>3[0-1]|[1-2]\d|0[1-9]|[1-9]| [1-9])

    matches it at the start of the string (alternatives in order, with
    backtracking), raises [ValueError] when it does not match or when
    text is left after the match, converts the three groups with [int]
    and builds the [datetime], whose constructor raises [ValueError] on
    a date that does not exist.  Strings are sequences of ASCII
    characters; [None] stands for [ValueError]. *)

Definition is_digit (c : ascii) : bool :=
  ((48 <=? N_of_ascii c) && (N_of_ascii c <=? 57))%N.

(** The character class [lo-hi]. *)
Definition in_class (lo hi c : ascii) : bool :=
  ((N_of_ascii lo <=? N_of_ascii c) && (N_of_ascii c <=? N_of_ascii hi))%N.

(** An alternative of a group: the text it matches at the start of the
    string, and the rest. *)
Definition alternative : Type := string -> option (string * string).

Definition one (p : ascii -> bool) : alternative :=
  fun s =>
    match s with
    | String c rest => if p c then Some (String c EmptyString, rest) else None
    | EmptyString => None
    end.

Definition two (p1 p2 : ascii -> bool) : alternative :=
  fun s =>
    match s with
    | String c1 (String c2 rest) =>
        if p1 c1 && p2 c2 then Some (String c1 (String c2 EmptyString), rest)
        else None
    | _ => None
    end.

(** [a1|a2|...] followed by [k]: the first alternative after which the
    rest of the expression matches. *)
Fixpoint alternation {A} (alts : list alternative) (k : string -> string -> option A)
    (s : string) : option A :=
  match alts with
  | [] => None
  | a :: alts' =>
      match a s with
      | Some (text, rest) =>
          match k text rest with
          | Some r => Some r
          | None => alternation alts' k s
          end
      | None => alternation alts' k s
      end
  end.

Definition literal {A} (c : ascii) (k : string -> option A) (s : string) : option A :=
  match s with
  | String c' rest => if Ascii.eqb c c' then k rest else None
  | EmptyString => None
  end.

Definition group_Y {A} (k : string -> string -> option A) (s : string) : option A :=
  match s with
  | String a (String b (String c (String d rest))) =>
      if is_digit a && is_digit b && is_digit c && is_digit d
      then k (String a (String b (String c (String d EmptyString)))) rest
      else None
  | _ => None
  end.

Definition group_m : list alternative :=
  [two (Ascii.eqb "1") (in_class "0" "2");
   two (Ascii.eqb "0") (in_class "1" "9");
   one (in_class "1" "9")].

Definition group_d : list alternative :=
  [two (Ascii.eqb "3") (in_class "0" "1");
   two (in_class "1" "2") is_digit;
   two (Ascii.eqb "0") (in_class "1" "9");
   one (in_class "1" "9");
   two (Ascii.eqb " ") (in_class "1" "9")].

(** The groups [Y], [m], [d] of the match and the text left after it. *)
Definition format_regex (s : string) : option (string * string * string * string) :=
  group_Y (fun Y =>
    literal "-" (alternation group_m (fun M =>
      literal "-" (alternation group_d (fun D rest => Some (Y, M, D, rest)))))) s.

Fixpoint int_digits (acc : Z) (s : string) : Z :=
  match s with
  | EmptyString => acc
  | String c rest => int_digits (10 * acc + (Z.of_N (N_of_ascii c) - 48)) rest
  end.

(** [int] of a matched group; the only blank a group can hold is the
    leading one of [ [1-9]], which [int] strips. *)
Definition int (s : string) : Z :=
  match s with
  | String c rest => if Ascii.eqb c " " then int_digits 0 rest else int_digits 0 s
  | EmptyString => 0
  end.

(** The [datetime] constructor: [_check_date_fields]. *)
Definition datetime_new (y m d : Z) : option datetime :=
  if (MINYEAR <=? y) && (y <=? MAXYEAR) && (1 <=? m) && (m <=? 12) &&
     (1 <=? d) && (d <=? days_in_month y m)
  then Some (mk_datetime y m d) else None.

Definition strptime (s : string) : option datetime :=
  match format_regex s with
  | Some (Y, M, D, rest) =>
      match rest with
      | EmptyString => datetime_new (int Y) (int M) (int D)
      | _ => None
      end
  | None => None
  end.

(** What [valid_date] gives [argparse]: the date, or
    [ArgumentTypeError] with its message. *)
Inductive parsed :=
| Accepted (d : datetime)
| ArgumentTypeError (msg : string).

Definition valid_date (s : string) : parsed :=
  match strptime s with
  | Some d => Accepted d
  | None => ArgumentTypeError ("Not a valid date: '" +:+ s +:+ "'.")
  end.

(** ** Auxiliary definitions for the calendar proofs *)

Definition month_day (leapyear : bool) (n : Z) : Z * Z :=
  let m := Z.shiftr (n + 50) 5 in
  let preceding :=
    DAYS_BEFORE_MONTH m + (if (2 <? m) && leapyear then 1 else 0) in
  if n <? preceding then
    let m := m - 1 in
    let preceding :=
      preceding - (DAYS_IN_MONTH m + (if (m =? 2) && leapyear then 1 else 0)) in
    (m, n - preceding + 1)
  else (m, n - preceding + 1).

Fixpoint all_from (P : Z -> bool) (fuel : nat) (z : Z) : bool :=
  match fuel with
  | O => true
  | S k => P z && all_from P k (z + 1)
  end.

Definition month_day_ok (leap : bool) (n : Z) : bool :=
  let '(m, d) := month_day leap n in
  (1 <=? m) && (m <=? 12) && (1 <=? d) &&
  (d <=? (if (m =? 2) && leap then 29 else DAYS_IN_MONTH m)) &&
  (DAYS_BEFORE_MONTH m + (if (2 <? m) && leap then 1 else 0) + d =? n + 1).

(** ** Vocabulary of the statements *)

(** [extend w reqs out]: the world after sending [reqs] and printing
    [out] from [w]. *)
Definition extend (w : world) (reqs : list request) (out : list string) : world :=
  mk_world (sent w ++ reqs) (stdout w ++ out).

(** [runs c r reqs out]: from any world, [c] ends with [r] after
    sending exactly [reqs] and printing exactly [out]. *)
Definition runs {A} (c : M A) (r : result A) (reqs : list request)
    (out : list string) : Prop :=
  forall w, c w = (r, extend w reqs out).

(** The exception [send_request] raises for a request the server
    refuses. *)
Definition transport_error (server : request -> response) (q : request) : exn :=
  RuntimeError "failedRequest"
    ("ERROR, " +:+ str (status_code (server q)) +:+ " code received from "
     +:+ url q +:+ ": " +:+ text (server q)).

Definition accepted (server : request -> response) (q : request) : Prop :=
  status_code (server q) = 200.

(** Either every request was accepted, or the last one was refused, it
    is the only refused one, and the computation raised its error. *)
Definition fail_fast {A} (server : request -> response) (r : result A)
    (reqs : list request) : Prop :=
  Forall (accepted server) reqs \/
  exists pre q, reqs = pre ++ [q] /\ Forall (accepted server) pre /\
                ~ accepted server q /\ r = Raise (transport_error server q).

Definition disciplined {A} (server : request -> response) (c : M A) : Prop :=
  exists r reqs out, runs c r reqs out /\ fail_fast server r reqs.

(** The monthly query for a first-of-month value. *)
Definition monthly_query (facility_id : Z) (month_date : datetime) : request :=
  mk_request
    (BASE_URL +:+ AVAILABILITY_ENDPOINT +:+ str facility_id
     +:+ "/monthlyAvailabilitySummaryView?")
    [("year", PInt (year month_date)); ("month", PInt (month month_date));
     ("inventoryBucket", PStr "FIT")].

(** A monthly query answered with status 200 and a body holding the
    per-date view. *)
Definition answered (server : request -> response) (facility_id : Z)
    (month_date : datetime) : Prop :=
  status_code (server (monthly_query facility_id month_date)) = 200 /\
  is_Some (facility_availability_summary_view_by_local_date
             (body (server (monthly_query facility_id month_date)))).

Definition name_query (tour_id : Z) : request :=
  mk_request (BASE_URL +:+ MAIN_PAGE_ENDPOINT +:+ str tour_id) [].

(** Months counted from year 0, and the first day of such a month. *)
Definition month_index (y m : Z) : Z := y * 12 + (m - 1).

Definition first_of_month (i : Z) : datetime :=
  mk_datetime (i / 12) (i mod 12 + 1) 1.

(** The snapshot says the tour is reservable on the date. *)
Definition reservable (api_data : gmap string day_summary) (tour_id : Z)
    (date_formatted : string) : bool :=
  match api_data !! date_formatted with
  | Some day =>
      match tour_availability_summary_view_by_tour_id day !! str tour_id with
      | Some summary => has_reservable summary
      | None => false
      end
  | None => false
  end.

(** The snapshot has the date but not the tour. *)
Definition tour_missing (api_data : gmap string day_summary) (tour_id : Z)
    (date_formatted : string) : bool :=
  match api_data !! date_formatted with
  | Some day =>
      match tour_availability_summary_view_by_tour_id day !! str tour_id with
      | Some _ => false
      | None => true
      end
  | None => false
  end.

(** Keys in order of first occurrence. *)
Definition add_key (keys : list Z) (k : Z) : list Z :=
  if existsb (Z.eqb k) keys then keys else keys ++ [k].

Definition first_occurrences (l : list Z) : list Z := fold_left add_key l [].

(** The day [x] days after [start_date]. *)
Definition nth_day (start_date : datetime) (x : Z) : datetime :=
  ord2ymd (toordinal start_date + x).

(** The dates the snapshot marks reservable for a tour, and the
    diagnostics printed for it, over a list of enumerated dates. *)
Definition available_dates (api_data : gmap string day_summary) (tour_id : Z)
    (dates : list datetime) : list string :=
  filter (fun s => reservable api_data tour_id s = true) (map strftime dates).

Definition diagnostics (facility_id : Z) (api_data : gmap string day_summary)
    (tour_id : Z) (dates : list datetime) : list string :=
  map (not_found_message tour_id facility_id)
    (filter (fun s => tour_missing api_data tour_id s = true) (map strftime dates)).

Definition present (api_data : gmap string day_summary) (d : datetime) : Prop :=
  is_Some (api_data !! strftime d).

Definition collapse_result (api_data : gmap string day_summary)
    (dates : list datetime) (tour_ids : list Z) (av0 : dict) : dict :=
  fold_left (fun av t => dict_set t (available_dates api_data t dates) av)
    tour_ids av0.

(** The per-date view a monthly query returns, and the snapshot merged
    from a list of months by successive [update]s. *)
Definition month_view (server : request -> response) (facility_id : Z)
    (month_date : datetime) : gmap string day_summary :=
  default ∅ (facility_availability_summary_view_by_local_date
               (body (server (monthly_query facility_id month_date)))).

Definition snapshot (server : request -> response) (facility_id : Z)
    (months : list datetime) (api0 : gmap string day_summary)
    : gmap string day_summary :=
  fold_left (fun api m => month_view server facility_id m ∪ api) months api0.

(** What a monthly query that is not answered raises. *)
Definition fetch_error (server : request -> response) (facility_id : Z)
    (month_date : datetime) : exn :=
  if status_code (server (monthly_query facility_id month_date)) =? 200
  then KeyError "facility_availability_summary_view_by_local_date"
  else transport_error server (monthly_query facility_id month_date).

(** Order of [str] values: lexicographic by character code. *)
Definition str_lt (a b : string) : Prop := String.compare a b = Lt.

(** A date of the requested range. *)
Definition in_range (start_date end_date d : datetime) : Prop :=
  valid d /\ dt_le start_date d /\ dt_le d end_date.

(** The requests sent between two worlds of one run. *)
Definition issued (w w' : world) : list request :=
  drop (length (sent w)) (sent w').

(** The name lookup of a tour succeeds: status 200 and a body holding
    the name. *)
Definition name_known (server : request -> response) (tour_id : Z) : Prop :=
  status_code (server (name_query tour_id)) = 200 /\
  is_Some (tour_name (body (server (name_query tour_id)))).

Definition display_name (server : request -> response) (tour_id : Z) : string :=
  default "" (tour_name (body (server (name_query tour_id)))).

(** What a failing name lookup raises. *)
Definition name_error (server : request -> response) (tour_id : Z) : exn :=
  if status_code (server (name_query tour_id)) =? 200
  then KeyError "tour_name"
  else transport_error server (name_query tour_id).

Definition tour_line (server : request -> response) (item : Z * list string) : string :=
  report_line (display_name server (fst item)) (snd item).


(** ** Sample data *)

Definition w0 : world := mk_world [] [].

Definition day_of (l : list (string * bool)) : day_summary :=
  mk_day_summary (list_to_map (map (fun p => (fst p, mk_tour_summary (snd p))) l)).

Definition refused : response :=
  mk_response 500 "Internal Server Error" (mk_json None None).

Definition named (name : string) : response :=
  mk_response 200 "" (mk_json None (Some name)).

Definition view_of (days : list (string * day_summary)) : response :=
  mk_response 200 "" (mk_json (Some (list_to_map days)) None).

(** A service that refuses every request. *)
Definition down_server (q : request) : response := refused.

(** A service that knows tour 100 by name and, for March 2024, only the
    first two days: tour 100 reservable on both, tour 300 listed as not
    reservable on the first and missing on the second. *)
Definition sample_server (q : request) : response :=
  if String.eqb (url q) (url (name_query 100)) then named "Cave Tour"
  else
    match params q with
    | [(_, PInt 2024); (_, PInt 3); _] =>
        view_of [("2024-03-01", day_of [("100", true); ("300", false)]);
                 ("2024-03-02", day_of [("100", true)])]
    | _ => refused
    end.

(** A service that answers every monthly query with an empty view and
    every name lookup with the same name. *)
Definition bare_server (q : request) : response :=
  match params q with
  | [] => named "Tour"
  | _ => view_of []
  end.

(** A service that answers every monthly query with tour 100 reservable
    on the first of March 2024 and every name lookup with status 200
    and a body that holds no name. *)
Definition nameless_server (q : request) : response :=
  match params q with
  | [] => mk_response 200 "" (mk_json None None)
  | _ => view_of [("2024-03-01", day_of [("100", true)])]
  end.


(** The form [YYYY-MM-DD]: the year on four digits, month and day on
    two. *)
Definition iso_date (d : datetime) : string :=
  zpad4 (year d) +:+ "-" +:+ zpad2 (month d) +:+ "-" +:+ zpad2 (day d).

(** The snapshot [sample_server] yields for March 2024. *)
Definition sample_snapshot : gmap string day_summary :=
  snapshot sample_server 7 [mk_datetime 2024 3 1] ∅.

(** ** Vocabulary of the further properties *)


(** The mapping the resolver computes from a snapshot and the dates of
    the range. *)
Definition resolved (api_data : gmap string day_summary) (dates : list datetime)
    (tour_ids : list Z) : dict :=
  map (fun t => (t, available_dates api_data t dates)) (first_occurrences tour_ids).

(** The ways [strptime] lets a month and a day be written. *)
Definition month_spellings (m : Z) : list string :=
  zpad2 m :: (if m <? 10 then [String (digit m) EmptyString] else []).

Definition day_spellings (d : Z) : list string :=
  zpad2 d ::
  (if d <? 10
   then [String (digit d) EmptyString; String " " (String (digit d) EmptyString)]
   else []).

Definition spellings (d : datetime) : list string :=
  flat_map (fun M =>
    map (fun D => zpad4 (year d) +:+ "-" +:+ M +:+ "-" +:+ D) (day_spellings (day d)))
    (month_spellings (month d)).

(** A service whose views of March and April 2024 both hold the 31st of
    March, with different flags for tour 100. *)
Definition overlapping_server (q : request) : response :=
  match params q with
  | [(_, PInt 2024); (_, PInt 3); _] =>
      view_of [("2024-03-31", day_of [("100", true)])]
  | [(_, PInt 2024); (_, PInt 4); _] =>
      view_of [("2024-03-31", day_of [("100", false)]);
               ("2024-04-01", day_of [("100", true)])]
  | [] => named "Tour"
  | _ => refused
  end.

(** The ways a run of [main] can go, each with its result, the requests
    it sends and the lines it prints: a monthly query is not answered;
    the enumeration of the dates fails; a date of the range is absent
    from the merged snapshot; a name lookup fails; the run completes. *)
Inductive run_shape (server : request -> response) (facility : Z)
    (tours : list Z) (start_date end_date : datetime)
    : result Z -> list request -> list string -> Prop :=
| fetch_fails pre m rest :
    months_of start_date end_date = pre ++ m :: rest ->
    Forall (answered server facility) pre ->
    ~ answered server facility m ->
    run_shape server facility tours start_date end_date
      (Raise (fetch_error server facility m))
      (map (monthly_query facility) (pre ++ [m])) []
| enumeration_fails e :
    Forall (answered server facility) (months_of start_date end_date) ->
    desired_dates start_date end_date = Raise e ->
    run_shape server facility tours start_date end_date
      (Raise e) (map (monthly_query facility) (months_of start_date end_date)) []
| date_missing t tours' pre d rest :
    tours = t :: tours' ->
    Forall (answered server facility) (months_of start_date end_date) ->
    desired_dates start_date end_date = Ok (pre ++ d :: rest) ->
    Forall (present (snapshot server facility (months_of start_date end_date) ∅)) pre ->
    snapshot server facility (months_of start_date end_date) ∅ !! strftime d = None ->
    run_shape server facility tours start_date end_date
      (Raise (KeyError (strftime d)))
      (map (monthly_query facility) (months_of start_date end_date))
      (diagnostics facility
         (snapshot server facility (months_of start_date end_date) ∅) t pre)
| name_fails dates av1 t l av2 :
    Forall (answered server facility) (months_of start_date end_date) ->
    desired_dates start_date end_date = Ok dates ->
    resolved (snapshot server facility (months_of start_date end_date) ∅) dates tours
      = av1 ++ (t, l) :: av2 ->
    Forall (fun item => name_known server (fst item)) av1 ->
    ~ name_known server t ->
    run_shape server facility tours start_date end_date
      (Raise (name_error server t))
      (map (monthly_query facility) (months_of start_date end_date)
       ++ map name_query (map fst av1) ++ [name_query t])
      (flat_map (fun t =>
         diagnostics facility
           (snapshot server facility (months_of start_date end_date) ∅) t dates) tours
       ++ map (tour_line server) av1)
| completes dates :
    Forall (answered server facility) (months_of start_date end_date) ->
    desired_dates start_date end_date = Ok dates ->
    (tours = [] \/
     Forall (present (snapshot server facility (months_of start_date end_date) ∅))
       dates) ->
    Forall (name_known server) (first_occurrences tours) ->
    run_shape server facility tours start_date end_date
      (Ok (if any_values
                (resolved (snapshot server facility (months_of start_date end_date) ∅)
                   dates tours)
           then 0 else 1))
      (map (monthly_query facility) (months_of start_date end_date)
       ++ map name_query (first_occurrences tours))
      (flat_map (fun t =>
         diagnostics facility
           (snapshot server facility (months_of start_date end_date) ∅) t dates) tours
       ++ map (tour_line server)
            (resolved (snapshot server facility (months_of start_date end_date) ∅)
               dates tours)).

(** * Proofs *)

(** ** Calendar facts *)

Lemma all_from_spec P fuel z :
  all_from P fuel z = true ->
  forall x, z <= x < z + Z.of_nat fuel -> P x = true.
Proof.
  revert z. induction fuel as [|k IH]; intros z H x Hx; [lia|].
  simpl in H. apply andb_prop in H as [H0 H1].
  destruct (Z.eq_dec x z) as [->|Hne]; [exact H0|].
  apply (IH (z + 1) H1). lia.
Qed.

Lemma month_day_check leap :
  all_from (month_day_ok leap) 365 0 = true.
Proof. destruct leap; vm_compute; reflexivity. Qed.

Lemma month_day_spec leap n :
  0 <= n < 365 ->
  let '(m, d) := month_day leap n in
  1 <= m <= 12 /\ 1 <= d <= (if (m =? 2) && leap then 29 else DAYS_IN_MONTH m) /\
  DAYS_BEFORE_MONTH m + (if (2 <? m) && leap then 1 else 0) + d = n + 1.
Proof.
  intros Hn.
  pose proof (all_from_spec _ _ _ (month_day_check leap) n ltac:(lia)) as H.
  unfold month_day_ok in H. destruct (month_day leap n) as [m d].
  repeat (apply andb_prop in H as [H ?]). lia.
Qed.

Lemma ord2ymd_eq n :
  ord2ymd n =
  let n0 := n - 1 in
  let n400 := n0 / 146097 in
  let r400 := n0 mod 146097 in
  let n100 := r400 / 36524 in
  let r100 := r400 mod 36524 in
  let n4 := r100 / 1461 in
  let r4 := r100 mod 1461 in
  let n1 := r4 / 365 in
  let r1 := r4 mod 365 in
  let y := n400 * 400 + 1 + (n100 * 100 + n4 * 4 + n1) in
  if (n1 =? 4) || (n100 =? 4) then mk_datetime (y - 1) 12 31
  else
    let leapyear := (n1 =? 3) && (negb (n4 =? 24) || (n100 =? 3)) in
    mk_datetime y (fst (month_day leapyear r1)) (snd (month_day leapyear r1)).
Proof.
  unfold ord2ymd, month_day, DI400Y, DI100Y, DI4Y. cbv zeta.
  destruct (_ || _); [reflexivity|].
  destruct (_ <? _); reflexivity.
Qed.

Lemma ord2ymd_spec n :
  1 <= n ->
  let d := ord2ymd n in
  1 <= year d /\ 1 <= month d <= 12 /\
  1 <= day d <= days_in_month (year d) (month d) /\
  toordinal d = n.
Proof.
  intros Hn. rewrite ord2ymd_eq. cbv zeta.
  set (n0 := n - 1).
  set (q := n0 / 146097). set (r400 := n0 mod 146097).
  set (n100 := r400 / 36524). set (r100 := r400 mod 36524).
  set (n4 := r100 / 1461). set (r4 := r100 mod 1461).
  set (n1 := r4 / 365). set (r1 := r4 mod 365).
  assert (Hq : 0 <= q) by (apply Z.div_pos; lia).
  assert (E400 : n0 = 146097 * q + r400 /\ 0 <= r400 < 146097)
    by (split; [apply Z.div_mod; lia | apply Z.mod_pos_bound; lia]).
  assert (E100 : r400 = 36524 * n100 + r100 /\ 0 <= r100 < 36524)
    by (split; [apply Z.div_mod; lia | apply Z.mod_pos_bound; lia]).
  assert (E4 : r100 = 1461 * n4 + r4 /\ 0 <= r4 < 1461)
    by (split; [apply Z.div_mod; lia | apply Z.mod_pos_bound; lia]).
  assert (E1 : r4 = 365 * n1 + r1 /\ 0 <= r1 < 365)
    by (split; [apply Z.div_mod; lia | apply Z.mod_pos_bound; lia]).
  assert (B100 : 0 <= n100 <= 4) by lia.
  assert (B4 : 0 <= n4 <= 24) by lia.
  assert (B1 : 0 <= n1 <= 4) by lia.
  clearbody q r400 n100 r100 n4 r4 n1 r1.
  destruct ((n1 =? 4) || (n100 =? 4)) eqn:Hend.
  - unfold toordinal, ymd2ord, days_before_year, days_before_month, days_in_month,
      is_leap. cbn [year month day].
    change (12 =? 2) with false. change (2 <? 12) with true.
    cbn [andb DAYS_IN_MONTH DAYS_BEFORE_MONTH].
    apply orb_prop in Hend.
    assert (Hc : (n1 = 4 /\ n100 <= 3 /\ n4 <= 23 /\ r1 = 0) \/
                 (n100 = 4 /\ n4 = 0 /\ n1 = 0 /\ r1 = 0)) by lia.
    clear Hend.
    destruct Hc as [(-> & ? & ? & ->) | (-> & -> & -> & ->)].
    + replace (q * 400 + 1 + (n100 * 100 + n4 * 4 + 4) - 1)
        with (4 * (100 * q + 25 * n100 + n4 + 1)) by lia.
      set (a := 100 * q + 25 * n100 + n4 + 1).
      assert (Hm4 : (4 * a) mod 4 = 0) by (rewrite Z.mul_comm; apply Z.mod_mul; lia).
      assert (Hm100 : (4 * a) mod 100 <> 0)
        by (subst a; Z.div_mod_to_equations; lia).
      assert (Hd4 : (4 * a - 1) / 4 = a - 1) by (Z.div_mod_to_equations; lia).
      assert (Hd100 : (4 * a - 1) / 100 = 4 * q + n100)
        by (subst a; Z.div_mod_to_equations; lia).
      assert (Hd400 : (4 * a - 1) / 400 = q)
        by (subst a; Z.div_mod_to_equations; lia).
      rewrite Hm4, Hd4, Hd100, Hd400.
      apply Z.eqb_neq in Hm100. rewrite Hm100. cbn [Z.eqb negb orb andb].
      subst a. lia.
    + replace (q * 400 + 1 + (4 * 100 + 0 * 4 + 0) - 1)
        with (400 * (q + 1)) by lia.
      assert (Hm4 : (400 * (q + 1)) mod 4 = 0) by (Z.div_mod_to_equations; lia).
      assert (Hm400 : (400 * (q + 1)) mod 400 = 0)
        by (rewrite Z.mul_comm; apply Z.mod_mul; lia).
      assert (Hd4 : (400 * (q + 1) - 1) / 4 = 100 * q + 99)
        by (Z.div_mod_to_equations; lia).
      assert (Hd100 : (400 * (q + 1) - 1) / 100 = 4 * q + 3)
        by (Z.div_mod_to_equations; lia).
      assert (Hd400 : (400 * (q + 1) - 1) / 400 = q)
        by (Z.div_mod_to_equations; lia).
      rewrite Hm4, Hm400, Hd4, Hd100, Hd400.
      cbn [Z.eqb]. rewrite orb_true_r. cbn [andb]. lia.
  - apply orb_false_elim in Hend as [H1 H100].
    apply Z.eqb_neq in H1, H100.
    set (leap := (n1 =? 3) && (negb (n4 =? 24) || (n100 =? 3))).
    set (y := q * 400 + 1 + (n100 * 100 + n4 * 4 + n1)).
    pose proof (month_day_spec leap r1 ltac:(lia)) as Hmd.
    destruct (month_day leap r1) as [m d]. cbn [fst snd year month day].
    destruct Hmd as (Hm & Hd & Hsum).
    assert (Hd4 : (y - 1) / 4 = 100 * q + 25 * n100 + n4)
      by (subst y; Z.div_mod_to_equations; lia).
    assert (Hd100 : (y - 1) / 100 = 4 * q + n100)
      by (subst y; Z.div_mod_to_equations; lia).
    assert (Hd400 : (y - 1) / 400 = q)
      by (subst y; Z.div_mod_to_equations; lia).
    assert (Hleap : is_leap y = leap).
    { unfold is_leap, leap.
      assert (Hm4 : (y mod 4 =? 0) = (n1 =? 3)).
      { apply eq_true_iff_eq. rewrite !Z.eqb_eq. subst y.
        Z.div_mod_to_equations. lia. }
      rewrite Hm4. destruct (n1 =? 3) eqn:E3; [|reflexivity].
      apply Z.eqb_eq in E3. cbn [andb].
      destruct (n4 =? 24) eqn:E24.
      * apply Z.eqb_eq in E24.
        assert (Hm100 : y mod 100 = 0) by (subst y; Z.div_mod_to_equations; lia).
        rewrite Hm100. cbn [Z.eqb negb orb].
        apply eq_true_iff_eq. rewrite !Z.eqb_eq. subst y.
        Z.div_mod_to_equations. lia.
      * apply Z.eqb_neq in E24.
        assert (Hm100 : y mod 100 <> 0) by (subst y; Z.div_mod_to_equations; lia).
        apply Z.eqb_neq in Hm100. rewrite Hm100. reflexivity. }
    unfold toordinal, ymd2ord, days_before_year, days_before_month, days_in_month.
    cbn [year month day]. rewrite Hleap, Hd4, Hd100, Hd400.
    subst y. repeat split; try lia.
Qed.

Lemma days_before_year_succ y :
  days_before_year (y + 1) =
  days_before_year y + 365 + (if is_leap y then 1 else 0).
Proof.
  unfold days_before_year, is_leap. cbv zeta.
  replace (y + 1 - 1) with y by lia.
  destruct (y mod 4 =? 0) eqn:E4; destruct (y mod 100 =? 0) eqn:E100;
    destruct (y mod 400 =? 0) eqn:E400; cbn [negb orb andb];
    rewrite ?Z.eqb_eq, ?Z.eqb_neq in *; Z.div_mod_to_equations; lia.
Qed.

Lemma days_before_year_mono y1 y2 :
  y1 <= y2 -> days_before_year y1 + (y2 - y1) * 365 <= days_before_year y2.
Proof.
  intros H. replace y2 with (y1 + Z.of_nat (Z.to_nat (y2 - y1))) by lia.
  generalize (Z.to_nat (y2 - y1)) as k. clear.
  induction k as [|k IH].
  - replace (y1 + Z.of_nat 0) with y1 by lia. lia.
  - replace (y1 + Z.of_nat (S k)) with (y1 + Z.of_nat k + 1) by lia.
    rewrite days_before_year_succ. destruct (is_leap _); lia.
Qed.

Ltac month_cases m Hm :=
  let H := fresh in
  assert (H : m = 1 \/ m = 2 \/ m = 3 \/ m = 4 \/ m = 5 \/ m = 6 \/
              m = 7 \/ m = 8 \/ m = 9 \/ m = 10 \/ m = 11 \/ m = 12) by lia;
  clear Hm;
  repeat (destruct H as [H | H]); subst m.

Lemma month_end_bound y m :
  1 <= m <= 12 ->
  0 <= days_before_month y m /\
  28 <= days_in_month y m <= 31 /\
  days_before_month y m + days_in_month y m <=
    365 + (if is_leap y then 1 else 0).
Proof.
  intros Hm. unfold days_before_month, days_in_month.
  month_cases m Hm; destruct (is_leap y); cbn; lia.
Qed.

Lemma month_step_bound y m1 m2 :
  1 <= m1 -> m1 < m2 -> m2 <= 12 ->
  days_before_month y m1 + days_in_month y m1 <= days_before_month y m2.
Proof.
  intros H1 H12 H2. unfold days_before_month, days_in_month.
  assert (Hm1 : 1 <= m1 <= 12) by lia. assert (Hm2 : 1 <= m2 <= 12) by lia.
  month_cases m1 Hm1; month_cases m2 Hm2; try lia;
    destruct (is_leap y); cbn; lia.
Qed.

Lemma cmp_lt_iff a b :
  cmp a b = Lt <->
  year a < year b \/
  (year a = year b /\ (month a < month b \/ (month a = month b /\ day a < day b))).
Proof.
  unfold cmp.
  destruct (Z.compare_spec (year a) (year b));
    destruct (Z.compare_spec (month a) (month b));
    destruct (Z.compare_spec (day a) (day b));
    split; intros; try discriminate; try reflexivity; lia.
Qed.

Lemma cmp_eq_iff a b : cmp a b = Eq <-> a = b.
Proof.
  unfold cmp. destruct a as [ya ma da], b as [yb mb db]. cbn [year month day].
  destruct (Z.compare_spec ya yb); destruct (Z.compare_spec ma mb);
    destruct (Z.compare_spec da db);
    split; intros E; try discriminate; try (inversion E; lia);
    subst; reflexivity.
Qed.

Lemma cmp_antisym a b : cmp b a = CompOpp (cmp a b).
Proof.
  unfold cmp.
  rewrite (Z.compare_antisym (year a) (year b)),
    (Z.compare_antisym (month a) (month b)),
    (Z.compare_antisym (day a) (day b)).
  destruct (year a ?= year b); cbn; try reflexivity.
  destruct (month a ?= month b); cbn; reflexivity.
Qed.

Lemma toordinal_lt a b :
  valid a -> valid b -> dt_lt a b -> toordinal a < toordinal b.
Proof.
  intros (Hya & Hma & Hda) (Hyb & Hmb & Hdb) H.
  apply cmp_lt_iff in H. unfold toordinal, ymd2ord.
  pose proof (month_end_bound (year a) (month a) Hma) as (? & ? & ?).
  pose proof (month_end_bound (year b) (month b) Hmb) as (? & ? & ?).
  destruct H as [Hy | [Hy [Hm | [Hm Hd]]]].
  - pose proof (days_before_year_succ (year a)).
    pose proof (days_before_year_mono (year a + 1) (year b) ltac:(lia)).
    lia.
  - rewrite Hy in *.
    pose proof (month_step_bound (year b) (month a) (month b)
                  ltac:(lia) Hm ltac:(lia)).
    lia.
  - rewrite Hy, Hm in *. lia.
Qed.

Lemma cmp_toordinal a b :
  valid a -> valid b -> cmp a b = (toordinal a ?= toordinal b).
Proof.
  intros Ha Hb. destruct (cmp a b) eqn:E.
  - apply cmp_eq_iff in E. subst. symmetry. apply Z.compare_refl.
  - symmetry. apply Z.compare_lt_iff. apply toordinal_lt; assumption.
  - symmetry. apply Z.compare_gt_iff. apply toordinal_lt; try assumption.
    unfold dt_lt. rewrite cmp_antisym, E. reflexivity.
Qed.

Lemma toordinal_inj a b :
  valid a -> valid b -> toordinal a = toordinal b -> a = b.
Proof.
  intros Ha Hb E. apply cmp_eq_iff. rewrite cmp_toordinal by assumption.
  rewrite E. apply Z.compare_refl.
Qed.

Lemma days_before_year_1 : days_before_year 1 = 0.
Proof. reflexivity. Qed.

Lemma days_before_year_10000 : days_before_year 10000 = 3652059.
Proof. reflexivity. Qed.

Lemma toordinal_range d : valid d -> 1 <= toordinal d <= MAXORDINAL.
Proof.
  intros Hd. pose proof Hd as (Hy & Hm & Hday).
  unfold toordinal, ymd2ord, MAXORDINAL, MINYEAR, MAXYEAR in *.
  pose proof (month_end_bound (year d) (month d) Hm) as (? & ? & ?).
  pose proof (days_before_year_mono 1 (year d) ltac:(lia)).
  pose proof (days_before_year_succ (year d)).
  pose proof (days_before_year_mono (year d + 1) 10000 ltac:(lia)).
  rewrite days_before_year_1, days_before_year_10000 in *.
  lia.
Qed.

Lemma fromordinal_valid n :
  1 <= n <= MAXORDINAL -> valid (ord2ymd n) /\ toordinal (ord2ymd n) = n.
Proof.
  intros Hn. generalize (ord2ymd_spec n ltac:(lia)).
  generalize (ord2ymd n) as d. intros d (Hy & Hm & Hd & Ho).
  split; [|exact Ho].
  split; [|split]; try assumption.
  unfold MINYEAR, MAXYEAR. split; [lia|].
  destruct (Z_le_gt_dec (year d) 9999) as [|Hbig]; [assumption|].
  exfalso. unfold toordinal, ymd2ord, MAXORDINAL in *.
  pose proof (month_end_bound (year d) (month d) Hm) as (? & ? & ?).
  pose proof (days_before_year_mono 10000 (year d) ltac:(lia)).
  rewrite days_before_year_10000 in *. lia.
Qed.

Lemma fromordinal_toordinal d : valid d -> ord2ymd (toordinal d) = d.
Proof.
  intros Hd. pose proof (toordinal_range d Hd) as Hr.
  destruct (fromordinal_valid _ Hr) as [Hv Ho].
  apply toordinal_inj; assumption.
Qed.

(** ** Effects: every computation only appends to the world *)

Lemma extend_nil w : extend w [] [] = w.
Proof. destruct w. unfold extend. cbn. by rewrite !app_nil_r. Qed.

Lemma extend_extend w t1 o1 t2 o2 :
  extend (extend w t1 o1) t2 o2 = extend w (t1 ++ t2) (o1 ++ o2).
Proof. unfold extend. cbn. by rewrite !app_assoc. Qed.

Lemma runs_fun {A} (c : M A) r1 t1 o1 r2 t2 o2 :
  runs c r1 t1 o1 -> runs c r2 t2 o2 -> r1 = r2 /\ t1 = t2 /\ o1 = o2.
Proof.
  intros H1 H2. specialize (H1 (mk_world [] [])). specialize (H2 (mk_world [] [])).
  rewrite H1 in H2. unfold extend in H2. cbn in H2. by inversion H2.
Qed.

Lemma runs_ret {A} (a : A) : runs (ret a) (Ok a) [] [].
Proof. intros w. unfold ret. by rewrite extend_nil. Qed.

Lemma runs_lift {A} (r : result A) : runs (lift r) r [] [].
Proof. intros w. unfold lift. by rewrite extend_nil. Qed.

Lemma runs_print line : runs (print line) (Ok tt) [] [line].
Proof. intros w. unfold print, extend. by rewrite app_nil_r. Qed.

Lemma runs_bind_ok {A B} (c : M A) (k : A -> M B) a t1 o1 r t2 o2 :
  runs c (Ok a) t1 o1 -> runs (k a) r t2 o2 ->
  runs (bind c k) r (t1 ++ t2) (o1 ++ o2).
Proof.
  intros Hc Hk w. unfold bind. rewrite Hc, Hk. by rewrite extend_extend.
Qed.

Lemma runs_bind_raise {A B} (c : M A) (k : A -> M B) e t o :
  runs c (Raise e) t o -> runs (bind c k) (Raise e) t o.
Proof. intros Hc w. unfold bind. by rewrite Hc. Qed.

Lemma runs_send_accepted server u ps :
  accepted server (mk_request u ps) ->
  runs (send_request server u ps) (Ok (body (server (mk_request u ps))))
    [mk_request u ps] [].
Proof.
  intros Hok w. unfold send_request, extend. rewrite Hok. cbn.
  by rewrite app_nil_r.
Qed.

Lemma runs_send_refused server u ps :
  ~ accepted server (mk_request u ps) ->
  runs (send_request server u ps)
    (Raise (transport_error server (mk_request u ps))) [mk_request u ps] [].
Proof.
  intros Hno w. unfold send_request, extend.
  destruct (status_code _ =? 200) eqn:E.
  - apply Z.eqb_eq in E. contradiction.
  - cbn. by rewrite app_nil_r.
Qed.

Lemma accepted_dec server q : {accepted server q} + {~ accepted server q}.
Proof. unfold accepted. apply Z.eq_dec. Qed.

Lemma fail_fast_nil {A} server (r : result A) : fail_fast server r [].
Proof. left. constructor. Qed.

Lemma fail_fast_app {A B} server a t1 (r : result B) t2 :
  fail_fast server (Ok a : result A) t1 -> fail_fast server r t2 ->
  fail_fast server r (t1 ++ t2).
Proof.
  intros [H1 | (pre & q & _ & _ & _ & Hr)]; [|discriminate].
  intros [H2 | (pre & q & -> & Hpre & Hq & ->)].
  - left. by apply Forall_app.
  - right. exists (t1 ++ pre), q. rewrite app_assoc.
    split; [done|]. split; [by apply Forall_app|]. done.
Qed.

Lemma fail_fast_raise {A B} server e t :
  fail_fast server (Raise e : result A) t -> fail_fast server (Raise e : result B) t.
Proof.
  intros [H | (pre & q & -> & Hpre & Hq & Hr)]; [by left|].
  right. exists pre, q. repeat split; try done. congruence.
Qed.

Lemma disciplined_ret {A} server (a : A) : disciplined server (ret a).
Proof. exists (Ok a), [], []. split; [apply runs_ret | apply fail_fast_nil]. Qed.

Lemma disciplined_lift {A} server (r : result A) : disciplined server (lift r).
Proof. exists r, [], []. split; [apply runs_lift | apply fail_fast_nil]. Qed.

Lemma disciplined_print server line : disciplined server (print line).
Proof.
  exists (Ok tt), [], [line]. split; [apply runs_print | apply fail_fast_nil].
Qed.

Lemma disciplined_send server u ps : disciplined server (send_request server u ps).
Proof.
  destruct (accepted_dec server (mk_request u ps)) as [Hok | Hno].
  - exists (Ok (body (server (mk_request u ps)))), [mk_request u ps], [].
    split; [by apply runs_send_accepted|]. left. by repeat constructor.
  - exists (Raise (transport_error server (mk_request u ps))), [mk_request u ps], [].
    split; [by apply runs_send_refused|].
    right. exists [], (mk_request u ps). by repeat split.
Qed.

Lemma disciplined_bind {A B} server (c : M A) (k : A -> M B) :
  disciplined server c -> (forall a, disciplined server (k a)) ->
  disciplined server (bind c k).
Proof.
  intros (r & t & o & Hc & Hf) Hk. destruct r as [a | e].
  - destruct (Hk a) as (r' & t' & o' & Hka & Hf').
    exists r', (t ++ t'), (o ++ o'). split.
    + eapply runs_bind_ok; eassumption.
    + eapply fail_fast_app; eassumption.
  - exists (Raise e), t, o. split.
    + by apply runs_bind_raise.
    + revert Hf. apply fail_fast_raise.
Qed.

Lemma disciplined_for_each {A S} server (f : S -> A -> M S) l :
  (forall s x, disciplined server (f s x)) ->
  forall s, disciplined server (for_each f l s).
Proof.
  intros Hf. induction l as [|x l IH]; intros s; cbn.
  - apply disciplined_ret.
  - apply disciplined_bind; [apply Hf | apply IH].
Qed.

Create HintDb discipline.
#[local] Hint Resolve disciplined_ret disciplined_lift disciplined_print
  disciplined_send : discipline.

Ltac discipline :=
  repeat first
    [ solve [auto with discipline]
    | apply disciplined_bind; [|intros ?]
    | apply disciplined_for_each; intros ? ? ].

Lemma disciplined_fetch_month server facility_id api_data month_date :
  disciplined server (fetch_month server facility_id api_data month_date).
Proof. unfold fetch_month. discipline. Qed.

Lemma disciplined_check_date server facility_id tour_id api_data av date :
  disciplined server (check_date facility_id tour_id api_data av date).
Proof.
  unfold check_date. discipline.
  destruct (_ !! _) as [summary|]; [destruct (has_reservable summary)|];
    discipline.
Qed.

#[local] Hint Resolve disciplined_fetch_month disciplined_check_date : discipline.

Lemma disciplined_check_tour server facility_id api_data dates av tour_id :
  disciplined server (check_tour facility_id api_data dates av tour_id).
Proof. unfold check_tour. discipline. Qed.

#[local] Hint Resolve disciplined_check_tour : discipline.

Lemma disciplined_resolver server facility_id tour_ids start_date end_date :
  disciplined server
    (get_tour_availabilities server facility_id tour_ids start_date end_date).
Proof. unfold get_tour_availabilities. discipline. Qed.

Lemma disciplined_print_tour server u item :
  disciplined server (print_tour server u item).
Proof.
  unfold print_tour. destruct item as [tour_id dates]. unfold get_tour_name.
  discipline.
Qed.

#[local] Hint Resolve disciplined_resolver disciplined_print_tour : discipline.

Lemma disciplined_render server av :
  disciplined server (print_human_readable server av).
Proof. unfold print_human_readable. discipline. Qed.

#[local] Hint Resolve disciplined_render : discipline.


(** ** The months queried *)

Lemma cmp_gt_iff a b : cmp a b = Gt <-> cmp b a = Lt.
Proof.
  rewrite (cmp_antisym a b). destruct (cmp a b); cbn; split; congruence.
Qed.

Lemma dt_le_iff a b : dt_le a b <-> dt_lt a b \/ a = b.
Proof.
  unfold dt_le, dt_lt. rewrite <- cmp_eq_iff.
  destruct (cmp a b); split; intros H; try tauto; try congruence;
    destruct H; congruence.
Qed.

Lemma dt_gtb_first y m until :
  1 <= m <= 12 -> 1 <= month until <= 12 -> 1 <= day until ->
  dt_gtb (mk_datetime y m 1) until = true <->
  month_index (year until) (month until) < month_index y m.
Proof.
  intros Hm Hum Hud. unfold dt_gtb, month_index.
  destruct (cmp _ _) eqn:E.
  - apply cmp_eq_iff in E. subst until. cbn in *. split; [discriminate|lia].
  - apply cmp_lt_iff in E. cbn in E. split; [discriminate|lia].
  - apply cmp_gt_iff, cmp_lt_iff in E. cbn in E. split; [lia|done].
Qed.

Lemma first_of_month_index y m :
  1 <= m <= 12 -> first_of_month (month_index y m) = mk_datetime y m 1.
Proof.
  intros Hm. unfold first_of_month, month_index.
  assert ((y * 12 + (m - 1)) / 12 = y) as -> by (Z.div_mod_to_equations; lia).
  assert ((y * 12 + (m - 1)) mod 12 = m - 1) as ->
    by (Z.div_mod_to_equations; lia).
  f_equal. lia.
Qed.

Lemma rrule_monthly_spec fuel : forall y m until,
  1 <= m <= 12 -> year until <= MAXYEAR -> 1 <= month until <= 12 ->
  1 <= day until ->
  month_index (year until) (month until) - month_index y m + 1 <= Z.of_nat fuel ->
  rrule_monthly fuel y m until =
  map first_of_month
    (seqZ (month_index y m)
       (month_index (year until) (month until) - month_index y m + 1)).
Proof.
  induction fuel as [|fuel IH]; intros y m until Hm Hy Hum Hud Hfuel.
  - rewrite seqZ_nil by lia. reflexivity.
  - cbn [rrule_monthly].
    pose proof (dt_gtb_first y m until Hm Hum Hud) as Hgt.
    destruct (dt_gtb _ _).
    + rewrite seqZ_nil by (destruct Hgt as [Hgt _]; specialize (Hgt eq_refl); lia).
      reflexivity.
    + assert (Hle : month_index y m <= month_index (year until) (month until)).
      { destruct (Z_le_gt_dec (month_index y m)
                    (month_index (year until) (month until))); [done|].
        destruct Hgt as [_ Hgt]. discriminate Hgt. lia. }
      rewrite seqZ_cons by lia. cbn [map].
      rewrite first_of_month_index by done. f_equal.
      cbv zeta. unfold month_index in *. unfold MAXYEAR in *.
      destruct (12 <? m + 1) eqn:E12.
      * apply Z.ltb_lt in E12. assert (m = 12) as -> by lia.
        change ((12 + 1) / 12) with 1. change ((12 + 1) mod 12) with 1.
        destruct (9999 <? y + 1) eqn:Ey.
        -- apply Z.ltb_lt in Ey. rewrite seqZ_nil by lia. reflexivity.
        -- apply Z.ltb_ge in Ey.
           rewrite (IH (y + 1) 1 until) by (unfold month_index, MAXYEAR; lia).
           unfold month_index. f_equal. f_equal; lia.
      * apply Z.ltb_ge in E12.
        rewrite (IH y (m + 1) until) by (unfold month_index, MAXYEAR; lia).
        unfold month_index. f_equal. f_equal; lia.
Qed.

Lemma months_of_spec start_date end_date :
  valid start_date -> valid end_date ->
  months_of start_date end_date =
  map first_of_month
    (seqZ (month_index (year start_date) (month start_date))
       (month_index (year end_date) (month end_date)
        - month_index (year start_date) (month start_date) + 1)).
Proof.
  intros (Hsy & Hsm & Hsd) (Hey & Hem & Hed).
  unfold months_of, rrule_MONTHLY. cbn [year month].
  apply rrule_monthly_spec; try lia.
  rewrite Z2Nat.id by (unfold MAXYEAR; lia).
  unfold month_index, MINYEAR, MAXYEAR in *. lia.
Qed.

(** ** The dates enumerated *)

Lemma comprehension_map {A B} (f : A -> result B) (g : A -> B) l :
  (forall x, In x l -> f x = Ok (g x)) -> comprehension f l = Ok (map g l).
Proof.
  induction l as [|x l IH]; intros H; cbn; [done|].
  rewrite (H x) by (by left). rewrite IH; [done|].
  intros y Hy. apply H. by right.
Qed.

Lemma In_seqZ x m n : In x (seqZ m n) <-> m <= x < m + n.
Proof. rewrite <- list_elem_of_In. apply elem_of_seqZ. Qed.

Lemma desired_dates_spec start_date end_date :
  valid start_date -> valid end_date ->
  desired_dates start_date end_date =
  Ok (map (nth_day start_date) (seqZ 0 (sub_days end_date start_date + 1))).
Proof.
  intros Hs He. unfold desired_dates, range.
  apply comprehension_map. intros x Hx. apply In_seqZ in Hx.
  unfold add_days, nth_day, sub_days in *.
  pose proof (toordinal_range _ Hs). pose proof (toordinal_range _ He).
  assert (Hin : (0 <? toordinal start_date + x) &&
                (toordinal start_date + x <=? MAXORDINAL) = true).
  { apply andb_true_intro. rewrite Z.ltb_lt, Z.leb_le. lia. }
  cbv zeta. by rewrite Hin.
Qed.

Lemma nth_day_spec start_date end_date x :
  valid start_date -> valid end_date ->
  0 <= x < sub_days end_date start_date + 1 ->
  valid (nth_day start_date x) /\
  toordinal (nth_day start_date x) = toordinal start_date + x /\
  dt_le start_date (nth_day start_date x) /\
  dt_le (nth_day start_date x) end_date.
Proof.
  intros Hs He Hx. unfold nth_day, sub_days in *.
  pose proof (toordinal_range _ Hs). pose proof (toordinal_range _ He).
  destruct (fromordinal_valid (toordinal start_date + x) ltac:(lia)) as [Hv Ho].
  split; [done|]. split; [done|].
  unfold dt_le. rewrite !cmp_toordinal by done. rewrite Ho.
  split; intros Hc; apply Z.compare_gt_iff in Hc; lia.
Qed.


Lemma in_desired_dates start_date end_date dates d :
  valid start_date -> valid end_date ->
  desired_dates start_date end_date = Ok dates ->
  In d dates <-> valid d /\ dt_le start_date d /\ dt_le d end_date.
Proof.
  intros Hs He. rewrite desired_dates_spec by done. intros [= <-].
  rewrite in_map_iff. split.
  - intros (x & <- & Hx). apply In_seqZ in Hx.
    destruct (nth_day_spec start_date end_date x Hs He ltac:(lia))
      as (? & ? & ? & ?). done.
  - intros (Hd & Hsd & Hde). exists (toordinal d - toordinal start_date).
    unfold dt_le in *. rewrite !cmp_toordinal in * by done.
    rewrite Z.compare_gt_iff in Hsd, Hde. split.
    + unfold nth_day.
      replace (toordinal start_date + (toordinal d - toordinal start_date))
        with (toordinal d) by lia.
      by apply fromordinal_toordinal.
    + apply In_seqZ. unfold sub_days. lia.
Qed.

(** ** Dictionaries *)

Lemma dict_get_set_eq k v d : dict_get k (dict_set k v d) = Some v.
Proof.
  induction d as [|[k' v'] d IH]; cbn.
  - by rewrite Z.eqb_refl.
  - destruct (k' =? k) eqn:E; cbn; [by rewrite Z.eqb_refl | by rewrite E].
Qed.

Lemma dict_get_set_ne k k' v d :
  k <> k' -> dict_get k' (dict_set k v d) = dict_get k' d.
Proof.
  intros Hne. induction d as [|[k0 v0] d IH]; cbn.
  - apply Z.eqb_neq in Hne. by rewrite Hne.
  - destruct (k0 =? k) eqn:E; cbn.
    + apply Z.eqb_eq in E. subst k0. apply Z.eqb_neq in Hne. by rewrite Hne.
    + by rewrite IH.
Qed.

Lemma dict_set_set k v v' d : dict_set k v' (dict_set k v d) = dict_set k v' d.
Proof.
  induction d as [|[k0 v0] d IH]; cbn.
  - by rewrite Z.eqb_refl.
  - destruct (k0 =? k) eqn:E; cbn; [by rewrite Z.eqb_refl | by rewrite E, IH].
Qed.

Lemma existsb_eqb_In k (l : list Z) : existsb (Z.eqb k) l = true <-> In k l.
Proof.
  rewrite existsb_exists. split.
  - intros (x & Hx & E). apply Z.eqb_eq in E. by subst.
  - intros H. exists k. split; [done | apply Z.eqb_refl].
Qed.

Lemma keys_dict_set k v d : map fst (dict_set k v d) = add_key (map fst d) k.
Proof.
  unfold add_key. induction d as [|[k0 v0] d IH]; cbn; [done|].
  rewrite (Z.eqb_sym k k0). destruct (k0 =? k) eqn:E; cbn.
  - apply Z.eqb_eq in E. by subst.
  - rewrite IH. by destruct (existsb _ _).
Qed.


Lemma add_key_In keys k x : In x (add_key keys k) <-> In x keys \/ x = k.
Proof.
  unfold add_key. destruct (existsb _ _) eqn:E.
  - apply existsb_eqb_In in E. split; [by left|]. intros [H | ->]; done.
  - rewrite in_app_iff. cbn. intuition (subst; auto).
Qed.

Lemma add_key_NoDup keys k : List.NoDup keys -> List.NoDup (add_key keys k).
Proof.
  intros Hnd. unfold add_key. destruct (existsb _ _) eqn:E; [done|].
  apply NoDup_ListNoDup. apply NoDup_app. rewrite !NoDup_ListNoDup.
  split; [done|]. split.
  - intros x Hx [= ->]%list_elem_of_singleton.
    apply list_elem_of_In, existsb_eqb_In in Hx. congruence.
  - apply NoDup_ListNoDup, NoDup_singleton.
Qed.

Lemma fold_add_key_In l : forall keys x,
  In x (fold_left add_key l keys) <-> In x keys \/ In x l.
Proof.
  induction l as [|k l IH]; intros keys x; cbn; [tauto|].
  rewrite IH, add_key_In. intuition (subst; auto).
Qed.

Lemma fold_add_key_NoDup l : forall keys,
  List.NoDup keys -> List.NoDup (fold_left add_key l keys).
Proof.
  induction l as [|k l IH]; intros keys H; cbn; [done|].
  by apply IH, add_key_NoDup.
Qed.

Lemma fold_add_key_fresh l : forall keys,
  List.NoDup (keys ++ l) -> fold_left add_key l keys = keys ++ l.
Proof.
  induction l as [|k l IH]; intros keys H; cbn; [by rewrite app_nil_r|].
  assert (Hk : existsb (Z.eqb k) keys = false).
  { destruct (existsb _ _) eqn:E; [|done]. apply existsb_eqb_In in E.
    apply NoDup_ListNoDup, NoDup_app in H as (_ & H & _).
    exfalso. apply (H k); [by apply list_elem_of_In | by left]. }
  unfold add_key at 2. rewrite Hk.
  rewrite IH; rewrite <- app_assoc; done.
Qed.

Lemma first_occurrences_NoDup l : List.NoDup (first_occurrences l).
Proof. apply fold_add_key_NoDup. constructor. Qed.

Lemma first_occurrences_In l x : In x (first_occurrences l) <-> In x l.
Proof. unfold first_occurrences. rewrite fold_add_key_In. cbn. tauto. Qed.

Lemma first_occurrences_id l : List.NoDup l -> first_occurrences l = l.
Proof. intros H. unfold first_occurrences. by rewrite fold_add_key_fresh. Qed.

Lemma keys_collapse_result api_data dates tour_ids : forall av0,
  map fst (collapse_result api_data dates tour_ids av0) =
  fold_left add_key tour_ids (map fst av0).
Proof.
  unfold collapse_result.
  induction tour_ids as [|t l IH]; intros av0; cbn; [done|].
  by rewrite IH, keys_dict_set.
Qed.


Lemma dict_get_collapse_result api_data dates tour_ids : forall av0 t,
  In t tour_ids ->
  dict_get t (collapse_result api_data dates tour_ids av0) =
  Some (available_dates api_data t dates).
Proof.
  unfold collapse_result.
  induction tour_ids as [|t0 l IH]; intros av0 t; cbn; [done|].
  intros Hin. destruct (in_dec Z.eq_dec t l) as [Hl | Hl]; [by apply IH|].
  destruct Hin as [-> | Hin]; [|done].
  clear IH. revert av0.
  assert (Hgen : forall a, dict_get t
            (fold_left (fun av t1 => dict_set t1 (available_dates api_data t1 dates) av) l a)
            = dict_get t a).
  { induction l as [|t1 l IH]; intros a; cbn; [done|].
    rewrite IH by (intros H; apply Hl; by right).
    apply dict_get_set_ne. intros ->. apply Hl. by left. }
  intros av0. by rewrite Hgen, dict_get_set_eq.
Qed.

(** ** The projection loops (lines 77-86) *)

Lemma available_dates_cons api_data t d dates :
  available_dates api_data t (d :: dates) =
  (if reservable api_data t (strftime d) then [strftime d] else [])
  ++ available_dates api_data t dates.
Proof.
  unfold available_dates. cbn [map]. rewrite filter_cons.
  destruct (reservable _ _ _); by rewrite ?decide_True, ?decide_False by done.
Qed.

Lemma diagnostics_cons facility_id api_data t d dates :
  diagnostics facility_id api_data t (d :: dates) =
  (if tour_missing api_data t (strftime d)
   then [not_found_message t facility_id (strftime d)] else [])
  ++ diagnostics facility_id api_data t dates.
Proof.
  unfold diagnostics. cbn [map]. rewrite filter_cons.
  destruct (tour_missing _ _ _); by rewrite ?decide_True, ?decide_False by done.
Qed.

Lemma check_date_present facility_id t api_data av acc d :
  present api_data d ->
  runs (check_date facility_id t api_data (dict_set t acc av) d)
    (Ok (dict_set t
           (acc ++ (if reservable api_data t (strftime d) then [strftime d] else []))
           av))
    []
    (if tour_missing api_data t (strftime d)
     then [not_found_message t facility_id (strftime d)] else []).
Proof.
  intros [day Hday] w.
  unfold check_date, reservable, tour_missing, bind, lift, getitem.
  rewrite Hday.
  destruct (_ !! str t) as [summary|].
  - destruct (has_reservable summary).
    + unfold dict_append. rewrite dict_get_set_eq, dict_set_set.
      by rewrite extend_nil.
    + unfold ret. by rewrite app_nil_r, extend_nil.
  - unfold print, ret, extend. cbn. by rewrite !app_nil_r.
Qed.

Lemma check_date_absent facility_id t api_data av d :
  api_data !! strftime d = None ->
  runs (check_date facility_id t api_data av d)
    (Raise (KeyError (strftime d))) [] [].
Proof.
  intros Hd w. unfold check_date, bind, lift, getitem. rewrite Hd.
  by rewrite extend_nil.
Qed.

Lemma check_dates_present facility_id t api_data av dates :
  Forall (present api_data) dates ->
  forall acc,
  runs (for_each (check_date facility_id t api_data) dates (dict_set t acc av))
    (Ok (dict_set t (acc ++ available_dates api_data t dates) av))
    [] (diagnostics facility_id api_data t dates).
Proof.
  induction 1 as [|d dates Hd _ IH]; intros acc.
  - cbn. unfold available_dates, diagnostics. cbn. rewrite app_nil_r.
    apply runs_ret.
  - cbn [for_each]. rewrite available_dates_cons, diagnostics_cons.
    change (@nil request) with (@nil request ++ []).
    eapply runs_bind_ok; [by apply check_date_present|].
    rewrite app_assoc. apply IH.
Qed.

Lemma check_dates_absent facility_id t api_data av pre d rest :
  Forall (present api_data) pre -> api_data !! strftime d = None ->
  forall acc,
  runs (for_each (check_date facility_id t api_data) (pre ++ d :: rest)
          (dict_set t acc av))
    (Raise (KeyError (strftime d))) [] (diagnostics facility_id api_data t pre).
Proof.
  intros Hpre Hd. induction Hpre as [|d0 pre Hd0 _ IH]; intros acc.
  - cbn [app for_each]. apply runs_bind_raise.
    unfold diagnostics. cbn. by apply check_date_absent.
  - cbn [app for_each]. rewrite diagnostics_cons.
    change (@nil request) with (@nil request ++ []).
    eapply runs_bind_ok; [by apply check_date_present|]. apply IH.
Qed.

Lemma first_absent api_data dates :
  Forall (present api_data) dates \/
  exists pre d rest, dates = pre ++ d :: rest /\
    Forall (present api_data) pre /\ api_data !! strftime d = None.
Proof.
  induction dates as [|d dates IH]; [by left|].
  destruct (api_data !! strftime d) as [day|] eqn:Hd.
  - destruct IH as [IH | (pre & d' & rest & -> & Hpre & Hd')].
    + left. constructor; [by exists day | done].
    + right. exists (d :: pre), d', rest. split; [done|].
      split; [|done]. constructor; [by exists day | done].
  - right. exists [], d, dates. by repeat split.
Qed.

Lemma collapse_present facility_id api_data dates tour_ids :
  Forall (present api_data) dates ->
  forall av0,
  runs (for_each (check_tour facility_id api_data dates) tour_ids av0)
    (Ok (collapse_result api_data dates tour_ids av0))
    [] (flat_map (fun t => diagnostics facility_id api_data t dates) tour_ids).
Proof.
  intros Hall. induction tour_ids as [|t l IH]; intros av0.
  - cbn. apply runs_ret.
  - cbn [for_each flat_map]. unfold collapse_result. cbn [fold_left].
    change (@nil request) with (@nil request ++ []).
    eapply runs_bind_ok; [|apply IH].
    unfold check_tour.
    pose proof (check_dates_present facility_id t api_data av0 dates Hall []) as H.
    exact H.
Qed.

Lemma collapse_absent facility_id api_data pre d rest t tour_ids av0 :
  Forall (present api_data) pre -> api_data !! strftime d = None ->
  runs (for_each (check_tour facility_id api_data (pre ++ d :: rest))
          (t :: tour_ids) av0)
    (Raise (KeyError (strftime d))) [] (diagnostics facility_id api_data t pre).
Proof.
  intros Hpre Hd. cbn [for_each]. apply runs_bind_raise.
  unfold check_tour. by apply check_dates_absent.
Qed.

(** Whenever the projection returns, it returns [collapse_result]. *)
Lemma collapse_returns facility_id api_data dates tour_ids av0 w av w' :
  for_each (check_tour facility_id api_data dates) tour_ids av0 w = (Ok av, w') ->
  av = collapse_result api_data dates tour_ids av0 /\
  (tour_ids = [] \/ Forall (present api_data) dates).
Proof.
  intros Hrun. destruct (first_absent api_data dates)
    as [Hall | (pre & d & rest & -> & Hpre & Hd)].
  - rewrite (collapse_present facility_id api_data dates tour_ids Hall av0 w) in Hrun.
    inversion Hrun. split; [done | by right].
  - destruct tour_ids as [|t l].
    + cbn in Hrun. inversion Hrun. split; [done | by left].
    + rewrite (collapse_absent facility_id api_data pre d rest t l av0 Hpre Hd w)
        in Hrun. discriminate.
Qed.

(** ** The fetch loop (lines 62-72) *)

Lemma answered_dec server facility_id m :
  {answered server facility_id m} + {~ answered server facility_id m}.
Proof.
  unfold answered.
  destruct (Z.eq_dec (status_code (server (monthly_query facility_id m))) 200);
    [|right; tauto].
  destruct (facility_availability_summary_view_by_local_date _) as [v|].
  - left. split; [done | by exists v].
  - right. intros [_ [v Hv]]. discriminate.
Qed.

Lemma fetch_month_run server facility_id api m w :
  fetch_month server facility_id api m w =
  (if answered_dec server facility_id m
   then Ok (month_view server facility_id m ∪ api)
   else Raise (fetch_error server facility_id m),
   extend w [monthly_query facility_id m] []).
Proof.
  destruct (answered_dec _ _ _) as [Hyes | Hno];
    unfold fetch_month, fetch_error, transport_error, month_view, answered,
      bind, send_request, lift, getfield, ret, extend in *;
    cbv beta zeta;
    change (mk_request _ _) with (monthly_query facility_id m);
    rewrite app_nil_r;
    destruct (server (monthly_query facility_id m)) as [st tx [view name]];
    cbn [status_code text body facility_availability_summary_view_by_local_date] in *.
  - destruct Hyes as [-> [v ->]]. done.
  - destruct (Z.eqb_spec st 200) as [-> | Hst]; cbn [negb]; [|done].
    destruct view as [v|]; [|done].
    exfalso. apply Hno. split; [done | by exists v].
Qed.

Lemma fetch_month_answered server facility_id api m :
  answered server facility_id m ->
  runs (fetch_month server facility_id api m)
    (Ok (month_view server facility_id m ∪ api)) [monthly_query facility_id m] [].
Proof.
  intros Hyes w. rewrite fetch_month_run.
  by destruct (answered_dec _ _ _).
Qed.

Lemma fetch_month_unanswered server facility_id api m :
  ~ answered server facility_id m ->
  runs (fetch_month server facility_id api m)
    (Raise (fetch_error server facility_id m)) [monthly_query facility_id m] [].
Proof.
  intros Hno w. rewrite fetch_month_run.
  by destruct (answered_dec _ _ _).
Qed.

Lemma fetch_answered server facility_id months :
  Forall (answered server facility_id) months ->
  forall api0,
  runs (for_each (fetch_month server facility_id) months api0)
    (Ok (snapshot server facility_id months api0))
    (map (monthly_query facility_id) months) [].
Proof.
  induction 1 as [|m months Hm _ IH]; intros api0.
  - cbn. apply runs_ret.
  - cbn [for_each map]. unfold snapshot. cbn [fold_left].
    change (@nil string) with (@nil string ++ []).
    change (monthly_query facility_id m :: map (monthly_query facility_id) months)
      with ([monthly_query facility_id m] ++ map (monthly_query facility_id) months).
    eapply runs_bind_ok; [by apply fetch_month_answered | apply IH].
Qed.

Lemma fetch_unanswered server facility_id pre m rest :
  Forall (answered server facility_id) pre ->
  ~ answered server facility_id m ->
  forall api0,
  runs (for_each (fetch_month server facility_id) (pre ++ m :: rest) api0)
    (Raise (fetch_error server facility_id m))
    (map (monthly_query facility_id) (pre ++ [m])) [].
Proof.
  intros Hpre Hm. induction Hpre as [|m0 pre Hm0 _ IH]; intros api0.
  - cbn [app for_each map]. apply runs_bind_raise.
    by apply fetch_month_unanswered.
  - cbn [app for_each map].
    change (@nil string) with (@nil string ++ []).
    change (monthly_query facility_id m0 :: map (monthly_query facility_id) (pre ++ [m]))
      with ([monthly_query facility_id m0]
            ++ map (monthly_query facility_id) (pre ++ [m])).
    eapply runs_bind_ok; [by apply fetch_month_answered | apply IH].
Qed.

Lemma first_unanswered server facility_id months :
  Forall (answered server facility_id) months \/
  exists pre m rest, months = pre ++ m :: rest /\
    Forall (answered server facility_id) pre /\ ~ answered server facility_id m.
Proof.
  induction months as [|m months IH]; [by left|].
  destruct (answered_dec server facility_id m) as [Hm | Hm].
  - destruct IH as [IH | (pre & m' & rest & -> & Hpre & Hm')].
    + left. by constructor.
    + right. exists (m :: pre), m', rest. split; [done|].
      split; [by constructor | done].
  - right. exists [], m, months. by repeat split.
Qed.

(** ** The resolver as a whole *)

Lemma resolver_fetch_fails server facility_id tour_ids start_date end_date pre m rest :
  months_of start_date end_date = pre ++ m :: rest ->
  Forall (answered server facility_id) pre ->
  ~ answered server facility_id m ->
  runs (get_tour_availabilities server facility_id tour_ids start_date end_date)
    (Raise (fetch_error server facility_id m))
    (map (monthly_query facility_id) (pre ++ [m])) [].
Proof.
  intros Hmonths Hpre Hm. unfold get_tour_availabilities. rewrite Hmonths.
  apply runs_bind_raise. by apply fetch_unanswered.
Qed.

Lemma resolver_projects server facility_id tour_ids start_date end_date dates r out :
  Forall (answered server facility_id) (months_of start_date end_date) ->
  desired_dates start_date end_date = Ok dates ->
  runs (for_each
          (check_tour facility_id
             (snapshot server facility_id (months_of start_date end_date) ∅) dates)
          tour_ids []) r [] out ->
  runs (get_tour_availabilities server facility_id tour_ids start_date end_date)
    r (map (monthly_query facility_id) (months_of start_date end_date)) out.
Proof.
  intros Hans Hdates Hproj. unfold get_tour_availabilities. cbv zeta.
  rewrite <- (app_nil_r (map _ _)). change out with ([] ++ out).
  eapply runs_bind_ok; [by apply fetch_answered|].
  rewrite Hdates.
  change (@nil request) with (@nil request ++ []). change out with ([] ++ out).
  eapply runs_bind_ok; [apply runs_lift | exact Hproj].
Qed.

(** ** [strftime]: injective on dates, monotone from year 1000 on *)

Ltac digit_cases a :=
  let H := fresh in
  assert (H : a = 0 \/ a = 1 \/ a = 2 \/ a = 3 \/ a = 4 \/ a = 5 \/
              a = 6 \/ a = 7 \/ a = 8 \/ a = 9) by lia;
  repeat (destruct H as [H | H]); subst a.

Lemma digit_compare a b :
  0 <= a <= 9 -> 0 <= b <= 9 -> Ascii.compare (digit a) (digit b) = (a ?= b).
Proof. intros Ha Hb. digit_cases a; digit_cases b; reflexivity. Qed.




Lemma valid_bounds d :
  valid d -> 0 <= year d <= 9999 /\ 0 <= month d <= 99 /\ 0 <= day d <= 99.
Proof.
  intros (Hy & Hm & Hd). unfold MINYEAR, MAXYEAR in *.
  pose proof (month_end_bound (year d) (month d) Hm) as (_ & ? & _). lia.
Qed.

(** [str] of a positive number, digit by digit. *)
Lemma pretty_N_char_digit n : (n < 10)%N -> pretty_N_char n = digit (Z.of_N n).
Proof.
  intros H. rewrite <- (N2Nat.id n).
  assert (Hk : (N.to_nat n < 10)%nat) by lia.
  generalize dependent (N.to_nat n). clear H. intros k Hk.
  do 10 (destruct k as [|k]; [reflexivity|]). lia.
Qed.

Lemma str_positive y : 0 < y -> str y = pretty_N_go (Z.to_N y) "".
Proof.
  destruct y as [|p|p]; [lia| |lia]. intros _.
  unfold str, pretty, pretty_Z, pretty, pretty_positive, pretty, pretty_N.
  by destruct (decide _).
Qed.

Lemma pretty_N_go_digit y s :
  0 < y ->
  pretty_N_go (Z.to_N y) s =
  pretty_N_go (Z.to_N (y / 10)) (String (digit (y mod 10)) s).
Proof.
  intros Hy. rewrite pretty_N_go_step by lia.
  rewrite pretty_N_char_digit by (apply N.mod_lt; lia).
  rewrite N2Z.inj_mod, Z2N.id by lia.
  by rewrite (Z2N.inj_div y 10) by lia.
Qed.

Lemma zpad4_app y s :
  zpad4 y +:+ s =
  String (digit (y / 100 / 10)) (String (digit ((y / 100) mod 10))
    (String (digit (y mod 100 / 10)) (String (digit ((y mod 100) mod 10)) s))).
Proof. reflexivity. Qed.

Lemma zpad4_chars y :
  zpad4 y =
  String (digit (y / 100 / 10)) (String (digit ((y / 100) mod 10))
    (String (digit (y mod 100 / 10)) (String (digit ((y mod 100) mod 10)) ""))).
Proof. reflexivity. Qed.

(** From year 1000 on the year is on four digits. *)
Lemma str_year_padded y : 1000 <= y <= 9999 -> str y = zpad4 y.
Proof.
  intros Hy. rewrite str_positive by lia.
  rewrite 4!pretty_N_go_digit by (Z.div_mod_to_equations; lia).
  replace (y / 10 / 10 / 10 / 10) with 0 by (Z.div_mod_to_equations; lia).
  change (Z.to_N 0) with 0%N. rewrite pretty_N_go_0, zpad4_chars.
  repeat (apply f_equal2; [apply f_equal; Z.div_mod_to_equations; lia|]);
    reflexivity.
Qed.

(** Below 1000 it is on one, two or three. *)
Lemma str_year_short y :
  1 <= y <= 999 ->
  str y = String (digit y) "" \/
  str y = String (digit (y / 10)) (String (digit (y mod 10)) "") \/
  str y = String (digit (y / 100))
            (String (digit (y / 10 mod 10)) (String (digit (y mod 10)) "")).
Proof.
  intros Hy. rewrite str_positive by lia.
  destruct (Z_lt_le_dec y 10) as [H1 | H1];
    [|destruct (Z_lt_le_dec y 100) as [H2 | H2]].
  - left. rewrite pretty_N_go_digit by lia.
    replace (y / 10) with 0 by (Z.div_mod_to_equations; lia).
    change (Z.to_N 0) with 0%N. rewrite pretty_N_go_0.
    repeat (apply f_equal2; [apply f_equal; Z.div_mod_to_equations; lia|]);
    reflexivity.
  - right; left. rewrite 2!pretty_N_go_digit by (Z.div_mod_to_equations; lia).
    replace (y / 10 / 10) with 0 by (Z.div_mod_to_equations; lia).
    change (Z.to_N 0) with 0%N. rewrite pretty_N_go_0.
    repeat (apply f_equal2; [apply f_equal; Z.div_mod_to_equations; lia|]);
    reflexivity.
  - right; right. rewrite 3!pretty_N_go_digit by (Z.div_mod_to_equations; lia).
    replace (y / 10 / 10 / 10) with 0 by (Z.div_mod_to_equations; lia).
    change (Z.to_N 0) with 0%N. rewrite pretty_N_go_0.
    repeat (apply f_equal2; [apply f_equal; Z.div_mod_to_equations; lia|]);
    reflexivity.
Qed.


Lemma string_length_app s t :
  String.length (s +:+ t) = (String.length s + String.length t)%nat.
Proof.
  induction s as [|c s IH]; [reflexivity|].
  change (S (String.length (s +:+ t)) = S (String.length s + String.length t)).
  by rewrite IH.
Qed.

Lemma string_app_inj_tail s s' t t' :
  s +:+ t = s' +:+ t' -> String.length t = String.length t' -> s = s' /\ t = t'.
Proof.
  revert s'. induction s as [|c s IH]; intros [|c' s'] E Hlen.
  - done.
  - exfalso. apply (f_equal String.length) in E.
    change (String c' s' +:+ t') with (String c' (s' +:+ t')) in E.
    cbn [String.length] in E. rewrite !string_length_app in E.
    cbn [String.length] in E. lia.
  - exfalso. apply (f_equal String.length) in E.
    change (String c s +:+ t) with (String c (s +:+ t)) in E.
    cbn [String.length] in E. rewrite !string_length_app in E.
    cbn [String.length] in E. lia.
  - change (String c (s +:+ t) = String c' (s' +:+ t')) in E.
    injection E as -> E. destruct (IH s' E Hlen) as [-> ->]. done.
Qed.

Lemma digit_inj a b : 0 <= a <= 9 -> 0 <= b <= 9 -> digit a = digit b -> a = b.
Proof.
  intros Ha Hb E. apply Z.compare_eq. rewrite <- digit_compare by done.
  rewrite E. unfold Ascii.compare. apply N.compare_refl.
Qed.

(** Whatever the year, two valid dates with the same string are the
    same date. *)
Lemma strftime_inj a b : valid a -> valid b -> strftime a = strftime b -> a = b.
Proof.
  intros Ha%valid_bounds Hb%valid_bounds E. unfold strftime in E.
  apply string_app_inj_tail in E as [Ey E]; [|reflexivity].
  apply pretty_Z_inj in Ey.
  unfold zpad2 in E. cbv [append] in E. injection E as E1 E2 E3 E4.
  apply digit_inj in E1, E2, E3, E4; try (Z.div_mod_to_equations; lia).
  assert (month a = month b) by (Z.div_mod_to_equations; lia).
  assert (day a = day b) by (Z.div_mod_to_equations; lia).
  destruct a, b. cbn in *. congruence.
Qed.

(** ** What a returning resolver has done *)

Lemma resolver_returns server facility_id tour_ids start_date end_date w av w' :
  get_tour_availabilities server facility_id tour_ids start_date end_date w
    = (Ok av, w') ->
  exists dates,
    desired_dates start_date end_date = Ok dates /\
    Forall (answered server facility_id) (months_of start_date end_date) /\
    av = collapse_result
           (snapshot server facility_id (months_of start_date end_date) ∅)
           dates tour_ids [] /\
    (tour_ids = [] \/
     Forall (present (snapshot server facility_id
                        (months_of start_date end_date) ∅)) dates).
Proof.
  intros Hrun.
  destruct (first_unanswered server facility_id (months_of start_date end_date))
    as [Hall | (pre & m & rest & Hm & Hpre & Hno)].
  - unfold get_tour_availabilities in Hrun. cbv zeta in Hrun.
    unfold bind at 1 in Hrun.
    rewrite (fetch_answered server facility_id _ Hall ∅ w) in Hrun.
    unfold bind at 1 in Hrun. unfold lift in Hrun.
    destruct (desired_dates start_date end_date) as [dates|e]; [|discriminate].
    exists dates. apply collapse_returns in Hrun as [-> Hp]. done.
  - rewrite (resolver_fetch_fails server facility_id tour_ids start_date end_date
               pre m rest Hm Hpre Hno w) in Hrun. discriminate.
Qed.


Lemma StronglySorted_seqZ_map {A} (R : A -> A -> Prop) (f : Z -> A) m n :
  (forall x y, m <= x -> x < y -> y < m + n -> R (f x) (f y)) ->
  StronglySorted R (map f (seqZ m n)).
Proof.
  destruct (Z_le_gt_dec n 0) as [Hn | Hn].
  { rewrite seqZ_nil by done. constructor. }
  replace n with (Z.of_nat (Z.to_nat n)) by lia.
  generalize (Z.to_nat n) as k. clear. intros k. revert m.
  induction k as [|k IH]; intros m HR.
  - rewrite seqZ_nil by lia. constructor.
  - rewrite seqZ_cons by lia. cbn [map]. constructor.
    + replace (Z.pred (Z.of_nat (S k))) with (Z.of_nat k) by lia.
      apply IH. intros x y Hx Hxy Hy. apply HR; lia.
    + apply Forall_forall. intros z Hz. apply list_elem_of_In in Hz.
      apply in_map_iff in Hz as (y & <- & Hy%In_seqZ). apply HR; lia.
Qed.

Lemma desired_dates_sorted start_date end_date dates :
  valid start_date -> valid end_date ->
  desired_dates start_date end_date = Ok dates ->
  StronglySorted dt_lt dates /\ Forall (in_range start_date end_date) dates.
Proof.
  intros Hs He Hd. split.
  - rewrite desired_dates_spec in Hd by done. injection Hd as <-.
    apply StronglySorted_seqZ_map. intros x y Hx Hxy Hy.
    destruct (nth_day_spec start_date end_date x Hs He ltac:(lia)) as (Hvx & Hox & _).
    destruct (nth_day_spec start_date end_date y Hs He ltac:(lia)) as (Hvy & Hoy & _).
    unfold dt_lt. rewrite cmp_toordinal by done. apply Z.compare_lt_iff. lia.
  - apply Forall_forall. intros d Hin. apply list_elem_of_In in Hin.
    by apply (in_desired_dates start_date end_date dates d Hs He Hd).
Qed.



Lemma str_lt_sorted_NoDup l : StronglySorted str_lt l -> List.NoDup l.
Proof.
  induction 1 as [|s l Hl IH Hs]; constructor; [|done].
  intros Hin. rewrite Forall_forall in Hs.
  specialize (Hs s ltac:(by apply list_elem_of_In)).
  unfold str_lt in Hs. clear -Hs.
  induction s as [|c s IH]; cbn in Hs; [done|].
  unfold Ascii.compare in Hs. rewrite N.compare_refl in Hs. auto.
Qed.

Lemma dt_lt_irrefl d : ~ dt_lt d d.
Proof. unfold dt_lt. by rewrite (proj2 (cmp_eq_iff d d) eq_refl). Qed.

Lemma dt_lt_asym a b : dt_lt a b -> ~ dt_lt b a.
Proof. unfold dt_lt. intros H. by rewrite (cmp_antisym a b), H. Qed.

Lemma dt_lt_sorted_NoDup l : StronglySorted dt_lt l -> List.NoDup l.
Proof.
  induction 1 as [|d l Hl IH Hd]; constructor; [|done].
  intros Hin. rewrite Forall_forall in Hd.
  by apply (dt_lt_irrefl d), Hd, list_elem_of_In.
Qed.


Lemma strftime_iso d : valid d -> 1000 <= year d -> strftime d = iso_date d.
Proof.
  intros Hd%valid_bounds Hy. unfold strftime, iso_date.
  by rewrite str_year_padded by lia.
Qed.

Lemma string_app_inv_head p s s' : p +:+ s = p +:+ s' -> s = s'.
Proof. induction p as [|c p IH]; cbn; [done|]. intros [= H]. by apply IH. Qed.


Lemma In_available_dates api_data t dates s :
  In s (available_dates api_data t dates) <->
  reservable api_data t s = true /\ In s (map strftime dates).
Proof.
  unfold available_dates. rewrite <- !list_elem_of_In.
  apply (list_elem_of_filter (fun s => reservable api_data t s = true)).
Qed.


Lemma issued_extend w t o : issued w (extend w t o) = t.
Proof. unfold issued, extend. cbn. apply drop_app_length. Qed.


Lemma script_run server facility tours start_date end_date r t o :
  runs (main server facility tours start_date end_date) r t o ->
  forall w,
  script server facility tours start_date end_date w =
  match r with
  | Ok code => (Exit code, extend w t o)
  | Raise e => (Uncaught e, extend w t (o ++ ["Something went wrong"]))
  end.
Proof.
  intros Hrun w. unfold script. rewrite Hrun. destruct r; [done|].
  unfold extend. cbn. by rewrite app_assoc.
Qed.

(** ** Rendering (lines 90-102) *)

Lemma name_known_dec server t : {name_known server t} + {~ name_known server t}.
Proof.
  unfold name_known.
  destruct (Z.eq_dec (status_code (server (name_query t))) 200); [|right; tauto].
  destruct (tour_name _) as [v|].
  - left. split; [done | by exists v].
  - right. intros [_ [v Hv]]. discriminate.
Qed.

Lemma print_tour_run server u t dates w :
  print_tour server u (t, dates) w =
  if name_known_dec server t
  then (Ok tt, extend w [name_query t] [tour_line server (t, dates)])
  else (Raise (name_error server t), extend w [name_query t] []).
Proof.
  destruct (name_known_dec _ _) as [Hyes | Hno];
    unfold print_tour, get_tour_name, name_error, transport_error, tour_line,
      display_name, name_known, bind, send_request, lift, getfield, print,
      extend in *;
    cbv beta zeta; cbn [fst snd];
    change (mk_request _ _) with (name_query t);
    destruct (server (name_query t)) as [st tx [view name]];
    cbn [status_code text body tour_name fst snd sent stdout] in *.
  - destruct Hyes as [-> [v ->]]. done.
  - rewrite app_nil_r.
    destruct (Z.eqb_spec st 200) as [-> | Hst]; cbn [negb]; [|done].
    destruct name as [v|]; [|done].
    exfalso. apply Hno. split; [done | by exists v].
Qed.

Lemma render_known server av :
  Forall (fun item => name_known server (fst item)) av ->
  runs (print_human_readable server av) (Ok tt)
    (map name_query (map fst av)) (map (tour_line server) av).
Proof.
  unfold print_human_readable.
  induction 1 as [|[t dates] av Ht _ IH]; cbn [for_each map fst].
  - apply runs_ret.
  - change (name_query t :: ?l) with ([name_query t] ++ l).
    change (tour_line server (t, dates) :: ?l)
      with ([tour_line server (t, dates)] ++ l).
    eapply runs_bind_ok; [|exact IH].
    intros w. rewrite print_tour_run. by destruct (name_known_dec _ _).
Qed.

(** ** Inverted ranges *)





(** ** Months touched by a range *)

Lemma dt_le_month_index a b :
  1 <= month a <= 12 -> 1 <= month b <= 12 -> dt_le a b ->
  month_index (year a) (month a) <= month_index (year b) (month b).
Proof.
  intros Ha Hb [Hlt | ->]%dt_le_iff; [|lia].
  apply cmp_lt_iff in Hlt. unfold month_index. lia.
Qed.

Lemma first_of_month_lt x y : x < y -> dt_lt (first_of_month x) (first_of_month y).
Proof.
  intros Hxy. apply cmp_lt_iff. unfold first_of_month. cbn [year month day].
  Z.div_mod_to_equations. lia.
Qed.

Lemma months_of_sorted start_date end_date :
  valid start_date -> valid end_date ->
  StronglySorted dt_lt (months_of start_date end_date).
Proof.
  intros Hs He. rewrite months_of_spec by done.
  apply StronglySorted_seqZ_map. intros x y _ Hxy _. by apply first_of_month_lt.
Qed.

Lemma months_of_length start_date end_date :
  valid start_date -> valid end_date -> dt_le start_date end_date ->
  Z.of_nat (length (months_of start_date end_date)) =
  month_index (year end_date) (month end_date)
  - month_index (year start_date) (month start_date) + 1.
Proof.
  intros Hs He Hle. rewrite months_of_spec by done.
  rewrite length_map, length_seqZ.
  pose proof (dt_le_month_index _ _ (proj1 (proj2 Hs)) (proj1 (proj2 He)) Hle).
  lia.
Qed.

Lemma months_of_touched start_date end_date y m :
  valid start_date -> valid end_date -> dt_le start_date end_date ->
  In (mk_datetime y m 1) (months_of start_date end_date) <->
  exists d, in_range start_date end_date d /\ year d = y /\ month d = m.
Proof.
  intros Hs He Hle. rewrite months_of_spec by done. rewrite in_map_iff.
  pose proof Hs as (Hsy & Hsm & Hsd). pose proof He as (Hey & Hem & Hed).
  split.
  - intros (i & Hi & Hrange%In_seqZ). injection Hi as Hy Hm.
    assert (Hmb : 1 <= m <= 12) by (Z.div_mod_to_equations; lia).
    assert (Hidx : month_index y m = i)
      by (unfold month_index; Z.div_mod_to_equations; lia).
    clear Hy Hm. subst i.
    destruct (Z.eq_dec (month_index y m)
                (month_index (year start_date) (month start_date))) as [E | Hne].
    + exists start_date. unfold month_index in E.
      split; [|lia]. split; [done|]. split; [|done].
      apply dt_le_iff. by right.
    + exists (mk_datetime y m 1). split; [|done].
      unfold month_index, MINYEAR, MAXYEAR in *.
      pose proof (month_end_bound y m Hmb) as (_ & Hdim & _).
      split; [|split].
      * unfold valid, MINYEAR, MAXYEAR. cbn [year month day]. lia.
      * apply dt_le_iff. left. apply cmp_lt_iff. cbn [year month day]. lia.
      * apply dt_le_iff.
        destruct (Z.eq_dec (day end_date) 1) as [Hd1 | Hd1];
          destruct (Z.eq_dec (y * 12 + (m - 1))
                      (year end_date * 12 + (month end_date - 1))) as [E | E].
        -- right. destruct end_date as [ey em ed]. cbn in *. f_equal; lia.
        -- left. apply cmp_lt_iff. cbn [year month day]. lia.
        -- left. apply cmp_lt_iff. cbn [year month day]. lia.
        -- left. apply cmp_lt_iff. cbn [year month day]. lia.
  - intros (d & (Hd & Hsd' & Hde) & <- & <-).
    pose proof Hd as (_ & Hdm & _).
    exists (month_index (year d) (month d)).
    split; [by apply first_of_month_index|].
    apply In_seqZ.
    pose proof (dt_le_month_index _ _ Hsm Hdm Hsd').
    pose proof (dt_le_month_index _ _ Hdm Hem Hde). lia.
Qed.

Lemma months_of_first_days start_date end_date :
  Forall (fun m => day m = 1) (months_of start_date end_date).
Proof.
  unfold months_of, rrule_MONTHLY. cbn [year month].
  generalize (Z.to_nat (12 * MAXYEAR)) as fuel.
  generalize (year start_date) as y. generalize (month start_date) as m.
  intros m y fuel. revert y m.
  induction fuel as [|fuel IH]; intros y m; cbn [rrule_monthly]; [constructor|].
  destruct (dt_gtb _ _); [constructor|]. constructor; [done|].
  cbv zeta. destruct (12 <? m + 1); [destruct (MAXYEAR <? _); [constructor|]|];
    apply IH.
Qed.

(** The projection sends no request. *)
Lemma projection_silent facility_id api_data dates tour_ids av0 :
  exists r out,
    runs (for_each (check_tour facility_id api_data dates) tour_ids av0) r [] out.
Proof.
  destruct (first_absent api_data dates)
    as [Hall | (pre & d & rest & -> & Hpre & Hd)].
  - eexists _, _. by apply collapse_present.
  - destruct tour_ids as [|t l].
    + exists (Ok av0), []. apply runs_ret.
    + eexists _, _. by apply collapse_absent.
Qed.

(** ** A date missing from the snapshot *)

(** With at least one tour requested, a date of the range that no
    monthly view contains makes the resolver raise [KeyError]. *)
Lemma resolver_missing_date server facility_id t tour_ids start_date end_date
    pre d rest :
  Forall (answered server facility_id) (months_of start_date end_date) ->
  desired_dates start_date end_date = Ok (pre ++ d :: rest) ->
  Forall (present (snapshot server facility_id
                     (months_of start_date end_date) ∅)) pre ->
  snapshot server facility_id (months_of start_date end_date) ∅
    !! strftime d = None ->
  runs (get_tour_availabilities server facility_id (t :: tour_ids)
          start_date end_date)
    (Raise (KeyError (strftime d)))
    (map (monthly_query facility_id) (months_of start_date end_date))
    (diagnostics facility_id
       (snapshot server facility_id (months_of start_date end_date) ∅) t pre).
Proof.
  intros Hans Hdates Hpre Hd.
  eapply resolver_projects; [done | exact Hdates|].
  by apply collapse_absent.
Qed.

(** * Properties of the specification *)

(** C1 (the code at a failing input). The view of March 2024 holds the
    1st and the 2nd but not the 3rd; resolving tour 100 over the 1st to
    the 3rd raises [KeyError] for the 3rd: no mapping is returned, the
    availability of the first two days is lost and no diagnostic is
    printed. *)
Theorem C1_missing_date_raises :
  sample_snapshot !! "2024-03-03" = None /\
  get_tour_availabilities sample_server 7 [100]
    (mk_datetime 2024 3 1) (mk_datetime 2024 3 3) w0
  = (Raise (KeyError "2024-03-03"),
     mk_world [monthly_query 7 (mk_datetime 2024 3 1)] []) /\
  script sample_server 7 [100] (mk_datetime 2024 3 1) (mk_datetime 2024 3 3) w0
  = (Uncaught (KeyError "2024-03-03"),
     mk_world [monthly_query 7 (mk_datetime 2024 3 1)] ["Something went wrong"]).
Proof. split; [|split]; vm_compute; reflexivity. Qed.

(** C2 (amended). For a range with [start_date <= end_date], the months
    to query are the first days of exactly the (year, month) pairs that
    some date of the range falls in, each once and in chronological
    order: one month for a range inside a single month, k months for a
    range over k calendar months.  The resolver sends their queries in
    that order, all of them when every query is answered; when one is
    not, the queries sent are those up to and including it. *)
Theorem C2_monthly_queries server facility_id tour_ids start_date end_date w :
  valid start_date -> valid end_date -> dt_le start_date end_date ->
  let months := months_of start_date end_date in
  let sent_by_call :=
    issued w (snd (get_tour_availabilities server facility_id tour_ids
                     start_date end_date w)) in
  (forall y m, In (mk_datetime y m 1) months <->
     exists d, in_range start_date end_date d /\ year d = y /\ month d = m) /\
  Forall (fun m => day m = 1) months /\
  StronglySorted dt_lt months /\
  Z.of_nat (length months) =
    month_index (year end_date) (month end_date)
    - month_index (year start_date) (month start_date) + 1 /\
  (year start_date = year end_date /\ month start_date = month end_date ->
   months = [mk_datetime (year start_date) (month start_date) 1]) /\
  (Forall (answered server facility_id) months ->
   sent_by_call = map (monthly_query facility_id) months) /\
  (forall pre m rest,
     months = pre ++ m :: rest ->
     Forall (answered server facility_id) pre ->
     ~ answered server facility_id m ->
     sent_by_call = map (monthly_query facility_id) (pre ++ [m])).
Proof.
  intros Hs He Hle. cbv zeta.
  split; [intros y m; by apply months_of_touched|].
  split; [apply months_of_first_days|].
  split; [by apply months_of_sorted|].
  split; [by apply months_of_length|].
  split; [|split].
  - intros [Hy Hm]. rewrite months_of_spec by done. rewrite <- Hy, <- Hm.
    replace (_ - _ + 1) with 1 by lia.
    rewrite seqZ_cons, seqZ_nil by lia. cbn [map].
    by rewrite first_of_month_index by apply Hs.
  - intros Hall.
    destruct (desired_dates start_date end_date) as [dates|e] eqn:Hdates;
      [|by rewrite desired_dates_spec in Hdates].
    destruct (projection_silent facility_id
                (snapshot server facility_id (months_of start_date end_date) ∅)
                dates tour_ids []) as (r & out & Hproj).
    rewrite (resolver_projects server facility_id tour_ids start_date end_date
               dates r out Hall Hdates Hproj w).
    cbn [snd]. apply issued_extend.
  - intros pre m rest Hmonths Hpre Hno.
    rewrite (resolver_fetch_fails server facility_id tour_ids start_date end_date
               pre m rest Hmonths Hpre Hno w).
    cbn [snd]. apply issued_extend.
Qed.

Lemma C2_witness :
  let start_date := mk_datetime 2024 3 30 in
  let end_date := mk_datetime 2024 4 2 in
  valid start_date /\ valid end_date /\ dt_le start_date end_date /\
  months_of start_date end_date = [mk_datetime 2024 3 1; mk_datetime 2024 4 1] /\
  issued w0 (snd (get_tour_availabilities bare_server 7 [100]
                    start_date end_date w0))
  = [monthly_query 7 (mk_datetime 2024 3 1); monthly_query 7 (mk_datetime 2024 4 1)].
Proof.
  cbv zeta.
  assert (Hs : valid (mk_datetime 2024 3 30)) by (vm_compute; intuition discriminate).
  assert (He : valid (mk_datetime 2024 4 2)) by (vm_compute; intuition discriminate).
  assert (Hle : dt_le (mk_datetime 2024 3 30) (mk_datetime 2024 4 2))
    by (vm_compute; discriminate).
  assert (Hm : months_of (mk_datetime 2024 3 30) (mk_datetime 2024 4 2)
               = [mk_datetime 2024 3 1; mk_datetime 2024 4 1])
    by (vm_compute; reflexivity).
  split; [exact Hs|]. split; [exact He|]. split; [exact Hle|]. split; [exact Hm|].
  pose proof (C2_monthly_queries bare_server 7 [100] _ _ w0 Hs He Hle) as H.
  cbv zeta in H. destruct H as (_ & _ & _ & _ & _ & H & _).
  rewrite H; rewrite Hm; [reflexivity|].
  repeat constructor; eexists; vm_compute; reflexivity.
Defined.

(** C2, as stated, fails: the range touches March and April 2024, so
    two months are to be queried, but the query for March is refused
    and the one for April is never sent: one query, not two. *)
Lemma C2_counterexample :
  let start_date := mk_datetime 2024 3 30 in
  let end_date := mk_datetime 2024 4 2 in
  let run := get_tour_availabilities down_server 7 [100] start_date end_date w0 in
  valid start_date /\ valid end_date /\ dt_le start_date end_date /\
  in_range start_date end_date (mk_datetime 2024 3 31) /\
  in_range start_date end_date (mk_datetime 2024 4 1) /\
  months_of start_date end_date = [mk_datetime 2024 3 1; mk_datetime 2024 4 1] /\
  issued w0 (snd run) = [monthly_query 7 (mk_datetime 2024 3 1)] /\
  issued w0 (snd run) <> map (monthly_query 7) (months_of start_date end_date) /\
  ~ In (monthly_query 7 (mk_datetime 2024 4 1)) (issued w0 (snd run)).
Proof.
  cbv zeta.
  split; [vm_compute; intuition discriminate|].
  split; [vm_compute; intuition discriminate|].
  split; [vm_compute; discriminate|].
  split; [vm_compute; intuition discriminate|].
  split; [vm_compute; intuition discriminate|].
  split; [vm_compute; reflexivity|].
  split; [vm_compute; reflexivity|].
  split; [vm_compute; discriminate|].
  vm_compute. intros [H | []]. discriminate.
Qed.

(** C3. Whenever the resolver returns, the returned mapping has exactly
    one entry per requested tour id: its keys are the requested ids in
    order of first request, without repetition, each requested id is a
    key and each key was requested; when no id is requested twice the
    keys are the request list itself.  Every entry holds a (possibly
    empty) list, whatever the availability. *)
Theorem C3_one_entry_per_tour server facility_id tour_ids start_date end_date w av w' :
  get_tour_availabilities server facility_id tour_ids start_date end_date w
    = (Ok av, w') ->
  map fst av = first_occurrences tour_ids /\
  List.NoDup (map fst av) /\
  (forall t, In t (map fst av) <-> In t tour_ids) /\
  (List.NoDup tour_ids -> map fst av = tour_ids) /\
  (forall t, In t tour_ids -> exists dates, dict_get t av = Some dates).
Proof.
  intros Hrun. apply resolver_returns in Hrun as (dates & _ & _ & -> & _).
  rewrite keys_collapse_result. cbn [map]. fold (first_occurrences tour_ids).
  split; [done|]. split; [apply first_occurrences_NoDup|].
  split; [apply first_occurrences_In|].
  split; [apply first_occurrences_id|].
  intros t Ht. eexists. by apply dict_get_collapse_result.
Qed.

Lemma C3_witness :
  get_tour_availabilities sample_server 7 [100; 300; 100]
    (mk_datetime 2024 3 1) (mk_datetime 2024 3 2) w0
  = (Ok [(100, ["2024-03-01"; "2024-03-02"]); (300, [])],
     mk_world [monthly_query 7 (mk_datetime 2024 3 1)]
       ["Tour id 300 not found in facility with id 7 on 2024-03-02"]) /\
  map fst [(100, ["2024-03-01"; "2024-03-02"]); (300, @nil string)]
    = first_occurrences [100; 300; 100].
Proof.
  assert (H : get_tour_availabilities sample_server 7 [100; 300; 100]
                (mk_datetime 2024 3 1) (mk_datetime 2024 3 2) w0
              = (Ok [(100, ["2024-03-01"; "2024-03-02"]); (300, [])],
                 mk_world [monthly_query 7 (mk_datetime 2024 3 1)]
                   ["Tour id 300 not found in facility with id 7 on 2024-03-02"]))
    by (vm_compute; reflexivity).
  split; [exact H|].
  exact (proj1 (C3_one_entry_per_tour _ _ _ _ _ _ _ _ H)).
Defined.



(** C5 (amended). For a mapping the resolver has returned, whenever
    the script ends with an exit code (that is, through [sys.exit],
    rendering having completed), the code is 0 or 1, and it is 0 exactly
    when some tour of the mapping has a non-empty list.  Rendering that
    completes does lead to such an exit; rendering that raises leads to
    no exit code: the exception reaches the interpreter, whose status
    is 1 whatever the lists hold. *)
Theorem C5_exit_code server facility tours start_date end_date w av w1 :
  get_tour_availabilities server facility tours start_date end_date w = (Ok av, w1) ->
  (forall code w2,
     script server facility tours start_date end_date w = (Exit code, w2) ->
     exit_status (Exit code) = code /\
     (code = 0 \/ code = 1) /\
     (code = 0 <-> exists t dates, In (t, dates) av /\ dates <> [])) /\
  (forall w2,
     print_human_readable server av w1 = (Ok tt, w2) ->
     script server facility tours start_date end_date w
     = (Exit (if any_values av then 0 else 1), w2)) /\
  (forall e w2,
     print_human_readable server av w1 = (Raise e, w2) ->
     fst (script server facility tours start_date end_date w) = Uncaught e /\
     exit_status (fst (script server facility tours start_date end_date w)) = 1).
Proof.
  intros Hres.
  assert (Hany : any_values av = true <->
                 exists t dates, In (t, dates) av /\ dates <> []).
  { unfold any_values. rewrite existsb_exists. split.
    - intros ([t dates] & Hin & Hne). exists t, dates. split; [done|].
      cbn in Hne. by destruct dates.
    - intros (t & dates & Hin & Hne). exists (t, dates). split; [done|].
      cbn. by destruct dates. }
  split.
  - intros code w2. unfold script, main, bind. rewrite Hres.
    destruct (print_human_readable server av w1) as [[[]|e] w1'];
      [|discriminate].
    destruct (any_values av); unfold ret; intros [= <- <-];
      (split; [done|]); (split; [auto|]).
    + split; [intros _; by apply Hany | done].
    + split; [done|]. intros H. apply Hany in H. discriminate.
  - split.
    + intros w2 Hrender. unfold script, main, bind. rewrite Hres, Hrender.
      by destruct (any_values av).
    + intros e w2 Hrender. unfold script, main, bind.
      by rewrite Hres, Hrender.
Qed.

Lemma C5_witness :
  let av := [(100, ["2024-03-01"; "2024-03-02"])] in
  let w1 := mk_world [monthly_query 7 (mk_datetime 2024 3 1)] [] in
  let w2 := mk_world [monthly_query 7 (mk_datetime 2024 3 1); name_query 100]
              ["Cave Tour: Available on the following date(s):" +:+ newline
               +:+ "2024-03-01, 2024-03-02"] in
  get_tour_availabilities sample_server 7 [100]
    (mk_datetime 2024 3 1) (mk_datetime 2024 3 2) w0 = (Ok av, w1) /\
  script sample_server 7 [100] (mk_datetime 2024 3 1) (mk_datetime 2024 3 2) w0
    = (Exit 0, w2) /\
  (0 = 0 <-> exists t dates, In (t, dates) av /\ dates <> []).
Proof.
  cbv zeta.
  assert (Hres : get_tour_availabilities sample_server 7 [100]
                   (mk_datetime 2024 3 1) (mk_datetime 2024 3 2) w0
                 = (Ok [(100, ["2024-03-01"; "2024-03-02"])],
                    mk_world [monthly_query 7 (mk_datetime 2024 3 1)] []))
    by (vm_compute; reflexivity).
  assert (Hrun : script sample_server 7 [100] (mk_datetime 2024 3 1)
                   (mk_datetime 2024 3 2) w0
                 = (Exit 0,
                    mk_world [monthly_query 7 (mk_datetime 2024 3 1); name_query 100]
                      ["Cave Tour: Available on the following date(s):" +:+ newline
                       +:+ "2024-03-01, 2024-03-02"]))
    by (vm_compute; reflexivity).
  split; [exact Hres|]. split; [exact Hrun|].
  exact (proj2 (proj2 (proj1 (C5_exit_code _ _ _ _ _ _ _ _ Hres) _ _ Hrun))).
Defined.

(** C5 (the claim as worded fails). Tour 100 is reservable on the
    first of March 2024 and every request is answered with status 200,
    but the body of the name lookup holds no name: the mapping has a
    non-empty list, yet the run ends with [KeyError] and status 1, not
    with exit code 0. *)
Lemma C5_counterexample :
  let day := mk_datetime 2024 3 1 in
  let av := [(100, ["2024-03-01"])] in
  let run := script nameless_server 7 [100] day day w0 in
  get_tour_availabilities nameless_server 7 [100] day day w0
    = (Ok av, mk_world [monthly_query 7 (mk_datetime 2024 3 1)] []) /\
  (exists t dates, In (t, dates) av /\ dates <> []) /\
  issued w0 (snd run) = [monthly_query 7 (mk_datetime 2024 3 1); name_query 100] /\
  Forall (accepted nameless_server) (issued w0 (snd run)) /\
  fst run = Uncaught (KeyError "tour_name") /\
  exit_status (fst run) = 1 /\
  (forall w2, run <> (Exit 0, w2)).
Proof.
  cbv zeta.
  split; [vm_compute; reflexivity|].
  split; [exists 100, ["2024-03-01"]; split; [by left | discriminate]|].
  split; [vm_compute; reflexivity|].
  split; [repeat constructor|].
  split; [vm_compute; reflexivity|].
  split; [vm_compute; reflexivity|].
  intros w2 H. apply (f_equal fst) in H. vm_compute in H. discriminate H.
Qed.



(** C7 (amended). When the name lookup of a tour fails during
    rendering, the render aborts at that tour with the lookup's error:
    the lines of the tours that precede it in the mapping have been
    printed, one name request was sent for each of them and for the
    failing tour, and nothing is printed or requested for the failing
    tour's line or for any later tour. *)
Theorem C7_render_aborts_at_failing_tour server av1 t dates av2 w :
  Forall (fun item => name_known server (fst item)) av1 ->
  ~ name_known server t ->
  print_human_readable server (av1 ++ (t, dates) :: av2) w =
  (Raise (name_error server t),
   mk_world (sent w ++ map name_query (map fst av1) ++ [name_query t])
            (stdout w ++ map (tour_line server) av1)).
Proof.
  intros Hknown Hno. revert w. unfold print_human_readable.
  induction Hknown as [|[t1 d1] av1 Ht1 _ IH]; intros w; cbn [app for_each map fst].
  - unfold bind. rewrite print_tour_run.
    destruct (name_known_dec _ _); [done|]. unfold extend.
    by rewrite app_nil_r.
  - unfold bind at 1. rewrite print_tour_run.
    destruct (name_known_dec _ _); [|done].
    rewrite IH. unfold extend. cbn [sent stdout]. f_equal.
    f_equal; rewrite <- app_assoc; done.
Qed.

Lemma C7_witness :
  Forall (fun item : Z * list string => name_known sample_server (fst item))
    [(100, [])] /\
  ~ name_known sample_server 200 /\
  print_human_readable sample_server [(100, []); (200, []); (300, [])] w0 =
  (Raise (name_error sample_server 200),
   mk_world [name_query 100; name_query 200] ["Cave Tour: No availabilities :("]).
Proof.
  assert (Hk : Forall (fun item : Z * list string => name_known sample_server (fst item))
                 [(100, [])]).
  { repeat constructor. eexists. vm_compute. reflexivity. }
  assert (Hno : ~ name_known sample_server 200).
  { intros [H _]. vm_compute in H. discriminate. }
  split; [exact Hk|]. split; [exact Hno|].
  exact (C7_render_aborts_at_failing_tour sample_server [(100, [])] 200 []
           [(300, [])] w0 Hk Hno).
Defined.

(** C7, as stated, fails: the name lookup of tour 200 fails, yet the
    line of tour 100 has been printed. *)
Lemma C7_counterexample :
  let av := [(100, []); (200, [])] in
  let run := print_human_readable sample_server av w0 in
  (exists t dates, In (t, dates) av /\ ~ name_known sample_server t) /\
  fst run = Raise (transport_error sample_server (name_query 200)) /\
  stdout (snd run) = ["Cave Tour: No availabilities :("] /\
  stdout (snd run) <> stdout w0.
Proof.
  cbv zeta. split; [|split; [|split]].
  - exists 200, []. split; [right; by left|].
    intros [H _]. vm_compute in H. discriminate.
  - vm_compute. reflexivity.
  - vm_compute. reflexivity.
  - vm_compute. discriminate.
Qed.

(** C8. The resolver's result depends only on its arguments and on the
    answers of the upstream service: started from any two worlds it
    yields the same result (a mapping or an exception) after sending
    the same requests, and so does a second call made right after a
    first one. *)
Theorem C8_resolver_deterministic server facility_id tour_ids start_date end_date w w' :
  let resolve :=
    get_tour_availabilities server facility_id tour_ids start_date end_date in
  fst (resolve w') = fst (resolve w) /\
  issued w' (snd (resolve w')) = issued w (snd (resolve w)) /\
  fst (resolve (snd (resolve w))) = fst (resolve w) /\
  issued (snd (resolve w)) (snd (resolve (snd (resolve w))))
    = issued w (snd (resolve w)).
Proof.
  cbv zeta.
  destruct (disciplined_resolver server facility_id tour_ids start_date end_date)
    as (r & t & o & Hrun & _).
  rewrite !Hrun. cbn [fst snd]. by rewrite !issued_extend.
Qed.







(** * Further properties *)

(** ** Merging the monthly views (lines 62-72) *)

Lemma snapshot_cons server facility_id m months api0 :
  snapshot server facility_id (m :: months) api0 =
  snapshot server facility_id months (month_view server facility_id m ∪ api0).
Proof. reflexivity. Qed.

Lemma snapshot_app server facility_id l1 l2 api0 :
  snapshot server facility_id (l1 ++ l2) api0 =
  snapshot server facility_id l2 (snapshot server facility_id l1 api0).
Proof. unfold snapshot. apply fold_left_app. Qed.

Lemma snapshot_untouched server facility_id months k : forall api0,
  (forall m, In m months -> month_view server facility_id m !! k = None) ->
  snapshot server facility_id months api0 !! k = api0 !! k.
Proof.
  induction months as [|m months IH]; intros api0 Hnone; [done|].
  rewrite snapshot_cons, IH by (intros m' Hm'; apply Hnone; by right).
  apply lookup_union_r. apply Hnone. by left.
Qed.

Lemma snapshot_last server facility_id pre m post k v api0 :
  month_view server facility_id m !! k = Some v ->
  (forall m', In m' post -> month_view server facility_id m' !! k = None) ->
  snapshot server facility_id (pre ++ m :: post) api0 !! k = Some v.
Proof.
  intros Hv Hpost. rewrite snapshot_app, snapshot_cons.
  rewrite snapshot_untouched by done.
  by apply lookup_union_Some_l.
Qed.

(** X1. When every monthly query is answered, the fetch loop returns
    the views merged with [update] in query order: a key that no view
    holds keeps what the dictionary held before, and a key held by
    several views gets the entry of the last of them (the last write
    wins). *)
Theorem fetch_last_write_wins server facility_id months api0 w :
  Forall (answered server facility_id) months ->
  exists api,
    for_each (fetch_month server facility_id) months api0 w
    = (Ok api, mk_world (sent w ++ map (monthly_query facility_id) months) (stdout w)) /\
    (forall k,
       (forall m, In m months -> month_view server facility_id m !! k = None) ->
       api !! k = api0 !! k) /\
    (forall k pre m post v,
       months = pre ++ m :: post ->
       month_view server facility_id m !! k = Some v ->
       (forall m', In m' post -> month_view server facility_id m' !! k = None) ->
       api !! k = Some v).
Proof.
  intros Hall. exists (snapshot server facility_id months api0).
  split; [|split].
  - rewrite (fetch_answered server facility_id months Hall api0 w).
    unfold extend. by rewrite app_nil_r.
  - intros k. apply snapshot_untouched.
  - intros k pre m post v -> Hv Hpost. by apply snapshot_last.
Qed.

Lemma fetch_last_write_wins_witness :
  let months := [mk_datetime 2024 3 1; mk_datetime 2024 4 1] in
  Forall (answered overlapping_server 7) months /\
  exists api,
    for_each (fetch_month overlapping_server 7) months ∅ w0
    = (Ok api, mk_world (map (monthly_query 7) months) []) /\
    api !! "2024-03-31" = Some (day_of [("100", false)]) /\
    api !! "2024-05-01" = None.
Proof.
  cbv zeta.
  assert (Hall : Forall (answered overlapping_server 7)
                   [mk_datetime 2024 3 1; mk_datetime 2024 4 1]).
  { repeat constructor; eexists; vm_compute; reflexivity. }
  split; [exact Hall|].
  destruct (fetch_last_write_wins overlapping_server 7 _ ∅ w0 Hall)
    as (api & Hrun & Hnone & Hlast).
  exists api. split; [exact Hrun|]. split.
  - apply (Hlast "2024-03-31" [mk_datetime 2024 3 1] (mk_datetime 2024 4 1) []);
      [reflexivity | vm_compute; reflexivity | intros m' []].
  - rewrite Hnone; [reflexivity|].
    intros m [<- | [<- | []]]; vm_compute; reflexivity.
Defined.








(** ** The enumeration of dates (line 74) *)

Lemma seqZ_snoc m n : 0 < n -> seqZ m n = seqZ m (n - 1) ++ [m + (n - 1)].
Proof.
  intros Hn. replace n with ((n - 1) + 1) at 1 by lia.
  by rewrite seqZ_app by lia.
Qed.

(** X3. For valid dates the enumeration never overflows: it holds
    exactly the calendar dates from [start_date] to [end_date]
    inclusive, each once, in ascending order, [(end - start).days + 1]
    of them (none for an inverted range); for [start_date <= end_date]
    it begins with [start_date] and ends with [end_date]. *)
Theorem date_enumeration_complete start_date end_date :
  valid start_date -> valid end_date ->
  exists dates,
    desired_dates start_date end_date = Ok dates /\
    (forall d, In d dates <-> in_range start_date end_date d) /\
    StronglySorted dt_lt dates /\
    length dates = Z.to_nat (sub_days end_date start_date + 1) /\
    (dt_le start_date end_date ->
     head dates = Some start_date /\ last dates = Some end_date).
Proof.
  intros Hs He.
  destruct (desired_dates start_date end_date) as [dates|e] eqn:Hd;
    [|by rewrite desired_dates_spec in Hd].
  exists dates. split; [done|].
  split; [intros d; by apply in_desired_dates|].
  split; [by apply (desired_dates_sorted _ _ _ Hs He Hd)|].
  rewrite desired_dates_spec in Hd by done. injection Hd as <-.
  split; [by rewrite length_map, length_seqZ|].
  intros Hle. unfold dt_le in Hle. rewrite cmp_toordinal in Hle by done.
  rewrite Z.compare_gt_iff in Hle. unfold sub_days.
  set (n := toordinal end_date - toordinal start_date + 1).
  assert (Hn : 0 < n) by lia. split.
  - rewrite seqZ_cons by lia. cbn. unfold nth_day. rewrite Z.add_0_r.
    f_equal. by apply fromordinal_toordinal.
  - rewrite seqZ_snoc by lia. rewrite map_app. cbn [map]. rewrite last_snoc.
    unfold nth_day. f_equal.
    replace (toordinal start_date + (0 + (n - 1))) with (toordinal end_date) by lia.
    by apply fromordinal_toordinal.
Qed.

Lemma date_enumeration_complete_witness :
  let start_date := mk_datetime 2024 2 28 in
  let end_date := mk_datetime 2024 3 1 in
  valid start_date /\ valid end_date /\
  desired_dates start_date end_date
  = Ok [mk_datetime 2024 2 28; mk_datetime 2024 2 29; mk_datetime 2024 3 1] /\
  exists dates,
    desired_dates start_date end_date = Ok dates /\
    (forall d, In d dates <-> in_range start_date end_date d) /\
    StronglySorted dt_lt dates /\
    length dates = Z.to_nat (sub_days end_date start_date + 1) /\
    (dt_le start_date end_date ->
     head dates = Some start_date /\ last dates = Some end_date).
Proof.
  cbv zeta.
  assert (Hs : valid (mk_datetime 2024 2 28)) by (vm_compute; intuition discriminate).
  assert (He : valid (mk_datetime 2024 3 1)) by (vm_compute; intuition discriminate).
  split; [exact Hs|]. split; [exact He|]. split; [vm_compute; reflexivity|].
  exact (date_enumeration_complete _ _ Hs He).
Defined.

(** ** The mapping the resolver returns (lines 77-88) *)

Lemma dict_set_tabulate (f : Z -> list string) keys t :
  dict_set t (f t) (map (fun k => (k, f k)) keys) =
  map (fun k => (k, f k)) (add_key keys t).
Proof.
  unfold add_key. induction keys as [|k keys IH]; cbn; [done|].
  rewrite (Z.eqb_sym t k). destruct (k =? t) eqn:E; cbn.
  - apply Z.eqb_eq in E. by subst.
  - rewrite IH. by destruct (existsb _ _).
Qed.

Lemma collapse_result_resolved api_data dates tour_ids :
  collapse_result api_data dates tour_ids [] = resolved api_data dates tour_ids.
Proof.
  unfold collapse_result, resolved, first_occurrences.
  change (@nil (Z * list string))
    with (map (fun k : Z => (k, available_dates api_data k dates)) (@nil Z)) at 1.
  generalize (@nil Z) as keys.
  induction tour_ids as [|t l IH]; intros keys; cbn [fold_left]; [done|].
  by rewrite (dict_set_tabulate (fun k => available_dates api_data k dates)), IH.
Qed.

Lemma first_occurrences_idem l :
  first_occurrences (first_occurrences l) = first_occurrences l.
Proof. apply first_occurrences_id, first_occurrences_NoDup. Qed.

(** X4. A mapping the resolver returns is given in closed form: the
    requested ids in order of first request, each with the dates of the
    range that the merged snapshot marks reservable for it.  Requesting
    an id more than once changes nothing in the mapping: the call with
    the repetitions removed returns the same mapping. *)
Theorem resolver_closed_form server facility_id tour_ids start_date end_date w av w' :
  get_tour_availabilities server facility_id tour_ids start_date end_date w
    = (Ok av, w') ->
  exists dates,
    desired_dates start_date end_date = Ok dates /\
    av = resolved (snapshot server facility_id (months_of start_date end_date) ∅)
           dates tour_ids /\
    exists w'',
      get_tour_availabilities server facility_id (first_occurrences tour_ids)
        start_date end_date w = (Ok av, w'').
Proof.
  intros Hrun. apply resolver_returns in Hrun as (dates & Hdates & Hans & -> & Hp).
  exists dates. split; [done|]. split; [apply collapse_result_resolved|].
  set (api := snapshot _ _ _ _) in *.
  assert (Hproj : exists out,
            runs (for_each (check_tour facility_id api dates)
                    (first_occurrences tour_ids) [])
              (Ok (collapse_result api dates tour_ids [])) [] out).
  { destruct Hp as [-> | Hall].
    - exists []. cbn. apply runs_ret.
    - eexists.
      pose proof (collapse_present facility_id api dates
                    (first_occurrences tour_ids) Hall []) as H.
      rewrite !collapse_result_resolved in *. unfold resolved in *.
      rewrite first_occurrences_idem in H. exact H. }
  destruct Hproj as (out & Hproj).
  eexists.
  apply (resolver_projects server facility_id (first_occurrences tour_ids)
           start_date end_date dates _ out Hans Hdates Hproj w).
Qed.

Lemma resolver_closed_form_witness :
  let av := [(100, ["2024-03-01"; "2024-03-02"]); (300, [])] in
  get_tour_availabilities sample_server 7 [100; 300; 100]
    (mk_datetime 2024 3 1) (mk_datetime 2024 3 2) w0
  = (Ok av,
     mk_world [monthly_query 7 (mk_datetime 2024 3 1)]
       ["Tour id 300 not found in facility with id 7 on 2024-03-02"]) /\
  exists w'',
    get_tour_availabilities sample_server 7 (first_occurrences [100; 300; 100])
      (mk_datetime 2024 3 1) (mk_datetime 2024 3 2) w0 = (Ok av, w'').
Proof.
  cbv zeta.
  assert (H : get_tour_availabilities sample_server 7 [100; 300; 100]
                (mk_datetime 2024 3 1) (mk_datetime 2024 3 2) w0
              = (Ok [(100, ["2024-03-01"; "2024-03-02"]); (300, [])],
                 mk_world [monthly_query 7 (mk_datetime 2024 3 1)]
                   ["Tour id 300 not found in facility with id 7 on 2024-03-02"]))
    by (vm_compute; reflexivity).
  split; [exact H|].
  destruct (resolver_closed_form _ _ _ _ _ _ _ _ H) as (dates & _ & _ & Hdedup).
  exact Hdedup.
Defined.

(** X5. A returned list misses nothing and invents nothing: for a
    requested tour and any calendar date, the formatted date is in the
    tour's list exactly when the date lies in the inclusive range and
    the merged snapshot marks the tour reservable on it. *)
Theorem resolver_lists_exactly_reservable_dates server facility_id tour_ids
    start_date end_date w av w' :
  valid start_date -> valid end_date ->
  get_tour_availabilities server facility_id tour_ids start_date end_date w
    = (Ok av, w') ->
  forall t, In t tour_ids ->
    exists l, dict_get t av = Some l /\
      forall d, valid d ->
        (In (strftime d) l <->
         in_range start_date end_date d /\
         reservable (snapshot server facility_id (months_of start_date end_date) ∅)
           t (strftime d) = true).
Proof.
  intros Hs He Hrun t Ht.
  apply resolver_returns in Hrun as (dates & Hdates & _ & -> & _).
  eexists. split; [by apply dict_get_collapse_result|].
  intros d Hd. rewrite In_available_dates, in_map_iff. split.
  - intros (Hres & d' & Heq & Hin). split; [|done].
    apply (in_desired_dates _ _ _ _ Hs He Hdates) in Hin.
    pose proof Hin as (Hd' & _). apply strftime_inj in Heq; [|done..]. by subst.
  - intros (Hrange & Hres). split; [done|]. exists d. split; [done|].
    by apply (in_desired_dates _ _ _ _ Hs He Hdates).
Qed.

Lemma resolver_lists_exactly_reservable_dates_witness :
  let start_date := mk_datetime 2024 3 1 in
  let end_date := mk_datetime 2024 3 2 in
  valid start_date /\ valid end_date /\
  get_tour_availabilities sample_server 7 [100; 300] start_date end_date w0
  = (Ok [(100, ["2024-03-01"; "2024-03-02"]); (300, [])],
     mk_world [monthly_query 7 (mk_datetime 2024 3 1)]
       ["Tour id 300 not found in facility with id 7 on 2024-03-02"]) /\
  exists l, dict_get 300 [(100, ["2024-03-01"; "2024-03-02"]); (300, [])] = Some l /\
    forall d, valid d ->
      (In (strftime d) l <->
       in_range start_date end_date d /\
       reservable (snapshot sample_server 7 (months_of start_date end_date) ∅)
         300 (strftime d) = true).
Proof.
  cbv zeta.
  assert (Hs : valid (mk_datetime 2024 3 1)) by (vm_compute; intuition discriminate).
  assert (He : valid (mk_datetime 2024 3 2)) by (vm_compute; intuition discriminate).
  assert (H : get_tour_availabilities sample_server 7 [100; 300]
                (mk_datetime 2024 3 1) (mk_datetime 2024 3 2) w0
              = (Ok [(100, ["2024-03-01"; "2024-03-02"]); (300, [])],
                 mk_world [monthly_query 7 (mk_datetime 2024 3 1)]
                   ["Tour id 300 not found in facility with id 7 on 2024-03-02"]))
    by (vm_compute; reflexivity).
  split; [exact Hs|]. split; [exact He|]. split; [exact H|].
  apply (resolver_lists_exactly_reservable_dates _ _ _ _ _ _ _ _ Hs He H 300).
  right. by left.
Defined.

(** ** The shape of a run (lines 104-115) *)

Lemma first_unknown server (av : dict) :
  Forall (fun item => name_known server (fst item)) av \/
  exists av1 t l av2, av = av1 ++ (t, l) :: av2 /\
    Forall (fun item => name_known server (fst item)) av1 /\
    ~ name_known server t.
Proof.
  induction av as [|[t l] av IH]; [by left|].
  destruct (name_known_dec server t) as [Ht | Ht].
  - destruct IH as [IH | (av1 & t' & l' & av2 & -> & Hav1 & Ht')].
    + left. by constructor.
    + right. exists ((t, l) :: av1), t', l', av2. split; [done|].
      split; [by constructor | done].
  - right. exists [], t, l, av. by repeat split.
Qed.

Lemma render_unknown server av1 t l av2 :
  Forall (fun item => name_known server (fst item)) av1 ->
  ~ name_known server t ->
  runs (print_human_readable server (av1 ++ (t, l) :: av2))
    (Raise (name_error server t))
    (map name_query (map fst av1) ++ [name_query t])
    (map (tour_line server) av1).
Proof.
  intros Hknown Hno. unfold print_human_readable.
  induction Hknown as [|[t1 l1] av1 Ht1 _ IH]; cbn [app for_each map fst].
  - apply runs_bind_raise. intros w. rewrite print_tour_run.
    by destruct (name_known_dec _ _).
  - change (name_query t1 :: ?x) with ([name_query t1] ++ x).
    change (tour_line server (t1, l1) :: ?x)
      with ([tour_line server (t1, l1)] ++ x).
    eapply runs_bind_ok; [|exact IH].
    intros w. rewrite print_tour_run. by destruct (name_known_dec _ _).
Qed.

Lemma keys_resolved api_data dates tour_ids :
  map fst (resolved api_data dates tour_ids) = first_occurrences tour_ids.
Proof. unfold resolved. rewrite map_map. cbn. apply map_id. Qed.

Lemma known_resolved server api_data dates tour_ids :
  Forall (fun item => name_known server (fst item))
    (resolved api_data dates tour_ids) <->
  Forall (name_known server) (first_occurrences tour_ids).
Proof. unfold resolved. by rewrite Forall_map. Qed.

Lemma projection_returns facility_id api_data dates tour_ids :
  tour_ids = [] \/ Forall (present api_data) dates ->
  runs (for_each (check_tour facility_id api_data dates) tour_ids [])
    (Ok (resolved api_data dates tour_ids)) []
    (flat_map (fun t => diagnostics facility_id api_data t dates) tour_ids).
Proof.
  intros [-> | Hall].
  - cbn. apply runs_ret.
  - rewrite <- collapse_result_resolved. by apply collapse_present.
Qed.

Lemma resolver_enumeration_fails server facility_id tour_ids start_date end_date e :
  Forall (answered server facility_id) (months_of start_date end_date) ->
  desired_dates start_date end_date = Raise e ->
  runs (get_tour_availabilities server facility_id tour_ids start_date end_date)
    (Raise e) (map (monthly_query facility_id) (months_of start_date end_date)) [].
Proof.
  intros Hans Hdates. unfold get_tour_availabilities. cbv zeta.
  rewrite <- (app_nil_r (map _ _)). change (@nil string) with (@nil string ++ []).
  eapply runs_bind_ok; [by apply fetch_answered|].
  apply runs_bind_raise. rewrite Hdates. apply runs_lift.
Qed.

Lemma main_completes server facility tours start_date end_date dates :
  Forall (answered server facility) (months_of start_date end_date) ->
  desired_dates start_date end_date = Ok dates ->
  (tours = [] \/
   Forall (present (snapshot server facility (months_of start_date end_date) ∅))
     dates) ->
  Forall (name_known server) (first_occurrences tours) ->
  runs (main server facility tours start_date end_date)
    (Ok (if any_values
              (resolved (snapshot server facility (months_of start_date end_date) ∅)
                 dates tours)
         then 0 else 1))
    (map (monthly_query facility) (months_of start_date end_date)
     ++ map name_query (first_occurrences tours))
    (flat_map (fun t =>
       diagnostics facility
         (snapshot server facility (months_of start_date end_date) ∅) t dates) tours
     ++ map (tour_line server)
          (resolved (snapshot server facility (months_of start_date end_date) ∅)
             dates tours)).
Proof.
  intros Hans Hdates Hp Hknown.
  set (api := snapshot server facility (months_of start_date end_date) ∅) in *.
  rewrite <- (keys_resolved api dates tours).
  unfold main. eapply runs_bind_ok.
  { eapply resolver_projects; [done | exact Hdates|].
    by apply projection_returns. }
  rewrite <- (app_nil_r (map name_query _)).
  rewrite <- (app_nil_r (map (tour_line server) _)).
  eapply runs_bind_ok; [by apply render_known, known_resolved|].
  destruct (any_values _); apply runs_ret.
Qed.

Lemma main_cases server facility tours start_date end_date :
  exists r t o,
    runs (main server facility tours start_date end_date) r t o /\
    run_shape server facility tours start_date end_date r t o.
Proof.
  destruct (first_unanswered server facility (months_of start_date end_date))
    as [Hans | (pre & m & rest & Hm & Hpre & Hno)].
  2:{ eexists _, _, _. split; [|exact (fetch_fails _ _ _ _ _ pre m rest Hm Hpre Hno)].
      unfold main. apply runs_bind_raise. by eapply resolver_fetch_fails. }
  destruct (desired_dates start_date end_date) as [dates|e] eqn:Hdates.
  2:{ eexists _, _, _. split; [|exact (enumeration_fails _ _ _ _ _ e Hans Hdates)].
      unfold main. apply runs_bind_raise. by apply resolver_enumeration_fails. }
  set (api := snapshot server facility (months_of start_date end_date) ∅).
  assert (Hcases : (tours = [] \/ Forall (present api) dates) \/
            exists t tours' pre d rest, tours = t :: tours' /\
              dates = pre ++ d :: rest /\ Forall (present api) pre /\
              api !! strftime d = None).
  { destruct (first_absent api dates) as [Hall | (pre & d & rest & -> & Hpre & Hd)];
      [left; by right|].
    destruct tours as [|t tours']; [left; by left|].
    right. by exists t, tours', pre, d, rest. }
  destruct Hcases as [Hp | (t & tours' & pre & d & rest & -> & -> & Hpre & Hd)].
  2:{ eexists _, _, _.
      split; [|exact (date_missing _ _ _ _ _ t tours' pre d rest eq_refl
                         Hans Hdates Hpre Hd)].
      unfold main. apply runs_bind_raise.
      eapply resolver_missing_date; eassumption. }
  pose proof (resolver_projects server facility tours start_date end_date dates
                _ _ Hans Hdates (projection_returns facility api dates tours Hp))
    as Hres.
  destruct (first_unknown server (resolved api dates tours))
    as [Hknown | (av1 & t & l & av2 & Hav & Hav1 & Ht)].
  - eexists _, _, _.
    split; [|exact (completes _ _ _ _ _ dates Hans Hdates Hp
                      (proj1 (known_resolved _ _ _ _) Hknown))].
    apply main_completes; [done..|]. by apply known_resolved in Hknown.
  - eexists _, _, _. split.
    + unfold main. eapply runs_bind_ok; [exact Hres|].
      apply runs_bind_raise. rewrite Hav. by apply render_unknown.
    + exact (name_fails _ _ _ _ _ dates av1 t l av2 Hans Hdates Hav Hav1 Ht).
Qed.

(** X6. Rendering a mapping returns exactly when the name lookup of
    every tour in it succeeds; it has then sent one name request per
    entry and printed one line per entry, both in the order of the
    mapping, each line made of the tour's name and its dates. *)
Theorem render_returns_iff_names_known server av w w' :
  print_human_readable server av w = (Ok tt, w') <->
  Forall (fun item => name_known server (fst item)) av /\
  w' = extend w (map name_query (map fst av))
         (map (fun item => report_line (display_name server (fst item)) (snd item)) av).
Proof.
  change (fun item => report_line (display_name server (fst item)) (snd item))
    with (tour_line server).
  split.
  - intros Hrun.
    destruct (first_unknown server av) as [Hknown | (av1 & t & l & av2 & -> & H1 & Ht)].
    + split; [done|]. rewrite (render_known server av Hknown w) in Hrun.
      by inversion Hrun.
    + rewrite (render_unknown server av1 t l av2 H1 Ht w) in Hrun. discriminate.
  - intros [Hknown ->]. by apply render_known.
Qed.

Lemma render_returns_iff_names_known_witness :
  let av := [(100, ["2024-03-01"; "2024-03-02"]); (100, [])] in
  let w' := mk_world [name_query 100; name_query 100]
              ["Cave Tour: Available on the following date(s):" +:+ newline
               +:+ "2024-03-01, 2024-03-02";
               "Cave Tour: No availabilities :("] in
  print_human_readable sample_server av w0 = (Ok tt, w') /\
  Forall (fun item => name_known sample_server (fst item)) av.
Proof.
  cbv zeta.
  assert (H : print_human_readable sample_server
                [(100, ["2024-03-01"; "2024-03-02"]); (100, [])] w0
              = (Ok tt,
                 mk_world [name_query 100; name_query 100]
                   ["Cave Tour: Available on the following date(s):" +:+ newline
                    +:+ "2024-03-01, 2024-03-02";
                    "Cave Tour: No availabilities :("]))
    by (vm_compute; reflexivity).
  split; [exact H|].
  exact (proj1 (proj1 (render_returns_iff_names_known _ _ _ _) H)).
Defined.

(** X7. How the stages compose in a run that meets no failure.  For
    valid dates, when every monthly query is answered, every date of
    the range is in the merged snapshot and every requested tour has a
    name, the script sends the monthly queries in month order, then one
    name lookup per distinct tour in order of first request; it prints
    the diagnostics of absent tours, then one report line per distinct
    tour; it exits with 0 when some tour has a reservable date in the
    range and with 1 otherwise. *)
Theorem complete_run server facility tours start_date end_date w :
  valid start_date -> valid end_date ->
  Forall (answered server facility) (months_of start_date end_date) ->
  (forall d, in_range start_date end_date d ->
     present (snapshot server facility (months_of start_date end_date) ∅) d) ->
  Forall (name_known server) tours ->
  exists dates,
    desired_dates start_date end_date = Ok dates /\
    script server facility tours start_date end_date w =
    (Exit (if any_values
                (resolved (snapshot server facility (months_of start_date end_date) ∅)
                   dates tours)
           then 0 else 1),
     extend w
       (map (monthly_query facility) (months_of start_date end_date)
        ++ map name_query (first_occurrences tours))
       (flat_map (fun t =>
          diagnostics facility
            (snapshot server facility (months_of start_date end_date) ∅) t dates)
          tours
        ++ map (tour_line server)
             (resolved (snapshot server facility (months_of start_date end_date) ∅)
                dates tours))) /\
    (any_values
       (resolved (snapshot server facility (months_of start_date end_date) ∅)
          dates tours) = true <->
     exists t d, In t tours /\ in_range start_date end_date d /\
       reservable (snapshot server facility (months_of start_date end_date) ∅)
         t (strftime d) = true).
Proof.
  intros Hs He Hans Hpresent Hknown.
  destruct (desired_dates start_date end_date) as [dates|e] eqn:Hdates;
    [|by rewrite desired_dates_spec in Hdates].
  exists dates. split; [done|].
  set (api := snapshot server facility (months_of start_date end_date) ∅) in *.
  assert (Hp : Forall (present api) dates).
  { apply Forall_forall. intros d Hd%list_elem_of_In.
    by apply Hpresent, (in_desired_dates _ _ _ _ Hs He Hdates). }
  assert (Hk : Forall (name_known server) (first_occurrences tours)).
  { rewrite Forall_forall in Hknown. apply Forall_forall.
    intros t Ht. apply list_elem_of_In in Ht.
    apply (proj1 (first_occurrences_In _ _)) in Ht.
    by apply Hknown, list_elem_of_In. }
  split.
  - by rewrite (script_run _ _ _ _ _ _ _ _
                  (main_completes server facility tours start_date end_date dates
                     Hans Hdates (or_intror Hp) Hk) w).
  - unfold any_values, resolved. rewrite existsb_exists. split.
    + intros ([t l] & Hin & Hne). apply in_map_iff in Hin as (t' & [= -> <-] & Ht).
      cbn [snd] in Hne.
      destruct (available_dates api t dates) as [|x l] eqn:Hav; [done|].
      assert (Hx : In x (available_dates api t dates)) by (rewrite Hav; by left).
      apply In_available_dates in Hx as (Hres & Hx).
      apply in_map_iff in Hx as (d & <- & Hd).
      apply (in_desired_dates _ _ _ _ Hs He Hdates) in Hd.
      exists t, d. split; [by apply first_occurrences_In|]. done.
    + intros (t & d & Ht & Hd & Hres).
      exists (t, available_dates api t dates). split.
      * apply in_map_iff. exists t. split; [done|]. by apply first_occurrences_In.
      * cbn [snd].
        assert (Hx : In (strftime d) (available_dates api t dates)).
        { apply In_available_dates. split; [done|]. apply in_map_iff.
          exists d. split; [done|].
          by apply (in_desired_dates _ _ _ _ Hs He Hdates). }
        by destruct (available_dates api t dates).
Qed.

Lemma complete_run_witness :
  let start_date := mk_datetime 2024 3 1 in
  let end_date := mk_datetime 2024 3 2 in
  valid start_date /\ valid end_date /\
  Forall (answered sample_server 7) (months_of start_date end_date) /\
  (forall d, in_range start_date end_date d ->
     present (snapshot sample_server 7 (months_of start_date end_date) ∅) d) /\
  Forall (name_known sample_server) [100; 100] /\
  script sample_server 7 [100; 100] start_date end_date w0 =
  (Exit 0,
   mk_world [monthly_query 7 (mk_datetime 2024 3 1); name_query 100]
     ["Cave Tour: Available on the following date(s):" +:+ newline
      +:+ "2024-03-01, 2024-03-02"]).
Proof.
  cbv zeta.
  assert (Hs : valid (mk_datetime 2024 3 1)) by (vm_compute; intuition discriminate).
  assert (He : valid (mk_datetime 2024 3 2)) by (vm_compute; intuition discriminate).
  assert (Hdates : desired_dates (mk_datetime 2024 3 1) (mk_datetime 2024 3 2)
                   = Ok [mk_datetime 2024 3 1; mk_datetime 2024 3 2])
    by (vm_compute; reflexivity).
  assert (Hans : Forall (answered sample_server 7)
                   (months_of (mk_datetime 2024 3 1) (mk_datetime 2024 3 2))).
  { replace (months_of _ _) with [mk_datetime 2024 3 1] by (vm_compute; reflexivity).
    repeat constructor. eexists. vm_compute. reflexivity. }
  assert (Hpresent : forall d,
            in_range (mk_datetime 2024 3 1) (mk_datetime 2024 3 2) d ->
            present (snapshot sample_server 7
                       (months_of (mk_datetime 2024 3 1) (mk_datetime 2024 3 2)) ∅) d).
  { intros d Hd. apply (in_desired_dates _ _ _ _ Hs He Hdates) in Hd.
    destruct Hd as [<- | [<- | []]]; eexists; vm_compute; reflexivity. }
  assert (Hknown : Forall (name_known sample_server) [100; 100]).
  { repeat constructor; eexists; vm_compute; reflexivity. }
  split; [exact Hs|]. split; [exact He|]. split; [exact Hans|].
  split; [exact Hpresent|]. split; [exact Hknown|].
  destruct (complete_run sample_server 7 [100; 100] _ _ w0 Hs He Hans Hpresent Hknown)
    as (dates & Hd & Hrun & _).
  rewrite Hrun. rewrite Hdates in Hd. injection Hd as <-.
  vm_compute. reflexivity.
Defined.

(** ** The requests of a run (lines 27-36, 62-72, 90-93) *)

Lemma issued_shape server facility tours start_date end_date w :
  exists ms ts,
    issued w (snd (script server facility tours start_date end_date w))
    = map (monthly_query facility) ms ++ map name_query ts /\
    ms `prefix_of` months_of start_date end_date /\
    ts `prefix_of` first_occurrences tours /\
    (ts <> [] -> ms = months_of start_date end_date).
Proof.
  destruct (main_cases server facility tours start_date end_date)
    as (r & t & o & Hrun & Hshape).
  rewrite (script_run _ _ _ _ _ _ _ _ Hrun w).
  assert (Hsnd : forall o', issued w (snd (match r with
            | Ok code => (Exit code, extend w t o)
            | Raise e => (Uncaught e, extend w t o') end)) = t).
  { intros o'. destruct r; cbn [snd]; apply issued_extend. }
  rewrite Hsnd. clear Hsnd Hrun.
  destruct Hshape as [pre m rest Hm _ _ | e _ _ | t0 tours' pre d rest _ _ _ _ _
                     | dates av1 t0 l av2 _ _ Hav _ _ | dates _ _ _ _].
  - exists (pre ++ [m]), []. rewrite app_nil_r. split; [done|].
    split; [exists rest; by rewrite Hm, <- app_assoc|].
    split; [apply prefix_nil | done].
  - exists (months_of start_date end_date), []. rewrite app_nil_r.
    split; [done|]. split; [done|]. split; [apply prefix_nil | done].
  - exists (months_of start_date end_date), []. rewrite app_nil_r.
    split; [done|]. split; [done|]. split; [apply prefix_nil | done].
  - exists (months_of start_date end_date), (map fst av1 ++ [t0]).
    split; [by rewrite map_app|]. split; [done|]. split; [|done].
    exists (map fst av2).
    rewrite <- (keys_resolved
                  (snapshot server facility (months_of start_date end_date) ∅)
                  dates tours), Hav.
    rewrite map_app. cbn [map fst]. by rewrite <- app_assoc.
  - exists (months_of start_date end_date), (first_occurrences tours).
    by repeat split.
Qed.

(** X8. Whatever the upstream answers and however the run ends, the
    script talks to two endpoints only: every request it sends is the
    monthly availability query of the facility for a month of the range,
    or the name lookup of a requested tour.  The monthly queries come
    first, in month order without a gap; the name lookups follow, in
    order of first request without a gap, and only once every month has
    been queried. *)
Theorem requests_confined server facility tours start_date end_date w :
  let reqs := issued w (snd (script server facility tours start_date end_date w)) in
  (forall q, In q reqs ->
     (exists m, In m (months_of start_date end_date) /\ q = monthly_query facility m) \/
     (exists t, In t tours /\ q = name_query t)) /\
  exists ms ts,
    reqs = map (monthly_query facility) ms ++ map name_query ts /\
    ms `prefix_of` months_of start_date end_date /\
    ts `prefix_of` first_occurrences tours /\
    (ts <> [] -> ms = months_of start_date end_date).
Proof.
  cbv zeta.
  destruct (issued_shape server facility tours start_date end_date w)
    as (ms & ts & Hreqs & Hms & Hts & Hall).
  split; [|by exists ms, ts].
  intros q. rewrite Hreqs, in_app_iff, !in_map_iff.
  intros [(m & <- & Hm) | (t & <- & Ht)].
  - left. exists m. split; [|done]. destruct Hms as [k ->].
    apply in_app_iff. by left.
  - right. exists t. split; [|done]. apply first_occurrences_In.
    destruct Hts as [k ->]. apply in_app_iff. by left.
Qed.

Lemma monthly_query_inj facility_id a b :
  day a = 1 -> day b = 1 ->
  monthly_query facility_id a = monthly_query facility_id b -> a = b.
Proof.
  destruct a as [ya ma da], b as [yb mb db]. cbn [day]. intros -> -> H.
  apply (f_equal params) in H. cbn in H. by injection H as -> ->.
Qed.

Lemma name_query_inj a b : name_query a = name_query b -> a = b.
Proof.
  intros H. apply (f_equal url) in H. cbn [name_query url] in H.
  repeat apply string_app_inv_head in H. by apply pretty_Z_inj in H.
Qed.

(** X9. For valid dates, a run never sends the same request twice:
    each month of the range is queried at most once and each requested
    tour is looked up at most once, also when the tour is requested
    several times. *)
Theorem no_request_sent_twice server facility tours start_date end_date w :
  valid start_date -> valid end_date ->
  List.NoDup (issued w (snd (script server facility tours start_date end_date w))).
Proof.
  intros Hs He.
  destruct (issued_shape server facility tours start_date end_date w)
    as (ms & ts & -> & [ms' Hms] & [ts' Hts] & _).
  pose proof (dt_lt_sorted_NoDup _ (months_of_sorted _ _ Hs He)) as Hnd.
  pose proof (months_of_first_days start_date end_date) as Hdays.
  rewrite Hms in Hnd, Hdays. apply NoDup_app_remove_r in Hnd.
  apply Forall_app in Hdays as [Hdays _]. rewrite Forall_forall in Hdays.
  pose proof (first_occurrences_NoDup tours) as Hnt.
  rewrite Hts in Hnt. apply NoDup_app_remove_r in Hnt.
  apply List.NoDup_app.
  - apply Finite.Injective_map_NoDup_in; [|done].
    intros a b Ha%list_elem_of_In Hb%list_elem_of_In.
    apply monthly_query_inj; by apply Hdays.
  - apply Finite.Injective_map_NoDup_in; [|done].
    intros a b _ _. apply name_query_inj.
  - intros q (m & <- & _)%in_map_iff (t & Hq & _)%in_map_iff.
    apply (f_equal params) in Hq. discriminate Hq.
Qed.

Lemma no_request_sent_twice_witness :
  let run := script sample_server 7 [100; 100] (mk_datetime 2024 3 1)
               (mk_datetime 2024 3 2) w0 in
  valid (mk_datetime 2024 3 1) /\ valid (mk_datetime 2024 3 2) /\
  issued w0 (snd run) = [monthly_query 7 (mk_datetime 2024 3 1); name_query 100] /\
  List.NoDup (issued w0 (snd run)).
Proof.
  cbv zeta.
  assert (Hs : valid (mk_datetime 2024 3 1)) by (vm_compute; intuition discriminate).
  assert (He : valid (mk_datetime 2024 3 2)) by (vm_compute; intuition discriminate).
  split; [exact Hs|]. split; [exact He|]. split; [vm_compute; reflexivity|].
  exact (no_request_sent_twice sample_server 7 [100; 100] _ _ w0 Hs He).
Defined.

(** ** Dates absent from the snapshot (lines 78-86) *)

Lemma StronglySorted_app_inv {A} (R : A -> A -> Prop) l1 x l2 :
  StronglySorted R (l1 ++ x :: l2) ->
  StronglySorted R l1 /\ Forall (fun y => R y x) l1 /\ Forall (R x) l2.
Proof.
  induction l1 as [|a l1 IH]; cbn; intros H.
  - apply StronglySorted_inv in H as [_ H]. by repeat split; try constructor.
  - apply StronglySorted_inv in H as [Hs Ha].
    destruct (IH Hs) as (H1 & H2 & H3).
    apply Forall_app in Ha as [Ha1 Ha2]. apply Forall_cons in Ha2 as [Hax _].
    split; [by constructor|]. split; [by constructor | done].
Qed.

(** X11. With at least one tour requested, valid dates and every
    monthly query answered, a date of the range that is absent from the
    merged snapshot makes the resolver raise [KeyError]: the key is the
    earliest absent date of the range, every monthly query has been
    sent, and the only output is the diagnostics of the first requested
    tour for the dates before that one.  No mapping is returned,
    whatever was found for the earlier dates. *)
Theorem missing_date_aborts server facility_id t tour_ids start_date end_date d0 :
  valid start_date -> valid end_date ->
  Forall (answered server facility_id) (months_of start_date end_date) ->
  in_range start_date end_date d0 ->
  snapshot server facility_id (months_of start_date end_date) ∅ !! strftime d0 = None ->
  exists d earlier,
    in_range start_date end_date d /\ dt_le d d0 /\
    snapshot server facility_id (months_of start_date end_date) ∅ !! strftime d = None /\
    StronglySorted dt_lt earlier /\
    (forall d', In d' earlier <-> in_range start_date end_date d' /\ dt_lt d' d) /\
    Forall (present (snapshot server facility_id (months_of start_date end_date) ∅))
      earlier /\
    runs (get_tour_availabilities server facility_id (t :: tour_ids)
            start_date end_date)
      (Raise (KeyError (strftime d)))
      (map (monthly_query facility_id) (months_of start_date end_date))
      (diagnostics facility_id
         (snapshot server facility_id (months_of start_date end_date) ∅) t earlier).
Proof.
  intros Hs He Hans Hd0 Habs.
  set (api := snapshot server facility_id (months_of start_date end_date) ∅) in *.
  destruct (desired_dates start_date end_date) as [dates|e] eqn:Hdates;
    [|by rewrite desired_dates_spec in Hdates].
  pose proof (in_desired_dates _ _ dates d0 Hs He Hdates) as Hin0.
  apply Hin0 in Hd0 as Hd0in.
  destruct (first_absent api dates) as [Hall | (pre & d & rest & -> & Hpre & Hd)].
  { rewrite Forall_forall in Hall.
    destruct (Hall d0 ltac:(by apply list_elem_of_In)) as [v Hv]. congruence. }
  destruct (desired_dates_sorted _ _ _ Hs He Hdates) as [Hsorted _].
  apply StronglySorted_app_inv in Hsorted as (Hsp & Hlt & Hgt).
  rewrite Forall_forall in Hlt, Hgt.
  assert (Hrange : forall x, In x (pre ++ d :: rest) <-> in_range start_date end_date x)
    by (intros x; by apply in_desired_dates).
  exists d, pre. split; [apply Hrange, in_app_iff; right; by left|].
  split.
  { apply dt_le_iff. apply in_app_iff in Hd0in as [Hin | [<- | Hin]].
    - rewrite Forall_forall in Hpre.
      destruct (Hpre d0 ltac:(by apply list_elem_of_In)) as [v Hv]. congruence.
    - by right.
    - left. by apply Hgt, list_elem_of_In. }
  split; [done|]. split; [done|]. split.
  { intros d'. split.
    - intros Hin. split; [apply Hrange, in_app_iff; by left|].
      by apply Hlt, list_elem_of_In.
    - intros [Hr Hd']. apply Hrange, in_app_iff in Hr as [Hin | [<- | Hin]]; [done|..].
      + by apply dt_lt_irrefl in Hd'.
      + exfalso. apply (dt_lt_asym _ _ Hd'). by apply Hgt, list_elem_of_In. }
  split; [done|].
  by apply resolver_missing_date with (rest := rest).
Qed.

Lemma missing_date_aborts_witness :
  let start_date := mk_datetime 2024 3 1 in
  let end_date := mk_datetime 2024 3 4 in
  let api := snapshot sample_server 7 (months_of start_date end_date) ∅ in
  valid start_date /\ valid end_date /\
  Forall (answered sample_server 7) (months_of start_date end_date) /\
  in_range start_date end_date (mk_datetime 2024 3 4) /\
  api !! strftime (mk_datetime 2024 3 4) = None /\
  get_tour_availabilities sample_server 7 [300; 100] start_date end_date w0
  = (Raise (KeyError "2024-03-03"),
     mk_world [monthly_query 7 (mk_datetime 2024 3 1)]
       ["Tour id 300 not found in facility with id 7 on 2024-03-02"]) /\
  exists d earlier,
    in_range start_date end_date d /\ dt_le d (mk_datetime 2024 3 4) /\
    api !! strftime d = None /\
    StronglySorted dt_lt earlier /\
    (forall d', In d' earlier <-> in_range start_date end_date d' /\ dt_lt d' d) /\
    Forall (present api) earlier /\
    runs (get_tour_availabilities sample_server 7 [300; 100] start_date end_date)
      (Raise (KeyError (strftime d)))
      (map (monthly_query 7) (months_of start_date end_date))
      (diagnostics 7 api 300 earlier).
Proof.
  cbv zeta.
  assert (Hs : valid (mk_datetime 2024 3 1)) by (vm_compute; intuition discriminate).
  assert (He : valid (mk_datetime 2024 3 4)) by (vm_compute; intuition discriminate).
  assert (Hans : Forall (answered sample_server 7)
                   (months_of (mk_datetime 2024 3 1) (mk_datetime 2024 3 4))).
  { replace (months_of _ _) with [mk_datetime 2024 3 1] by (vm_compute; reflexivity).
    repeat constructor. eexists. vm_compute. reflexivity. }
  assert (Hd0 : in_range (mk_datetime 2024 3 1) (mk_datetime 2024 3 4)
                  (mk_datetime 2024 3 4))
    by (vm_compute; intuition discriminate).
  assert (Habs : snapshot sample_server 7
                   (months_of (mk_datetime 2024 3 1) (mk_datetime 2024 3 4)) ∅
                 !! strftime (mk_datetime 2024 3 4) = None)
    by (vm_compute; reflexivity).
  split; [exact Hs|]. split; [exact He|]. split; [exact Hans|].
  split; [exact Hd0|]. split; [exact Habs|]. split; [vm_compute; reflexivity|].
  exact (missing_date_aborts sample_server 7 300 [100] _ _ _ Hs He Hans Hd0 Habs).
Defined.

(** X12. With an empty list of tours the snapshot is never consulted:
    for valid dates and answered monthly queries the resolver returns
    the empty mapping even when dates of the range are absent from the
    snapshot, and [main] sends the monthly queries only, prints nothing
    and returns 1. *)
Theorem no_tours_requested server facility start_date end_date w :
  valid start_date -> valid end_date ->
  Forall (answered server facility) (months_of start_date end_date) ->
  get_tour_availabilities server facility [] start_date end_date w =
    (Ok [], extend w (map (monthly_query facility) (months_of start_date end_date)) [])
  /\
  main server facility [] start_date end_date w =
    (Ok 1, extend w (map (monthly_query facility) (months_of start_date end_date)) []).
Proof.
  intros Hs He Hans.
  pose proof (desired_dates_spec _ _ Hs He) as Hdates. split.
  - apply (resolver_projects server facility [] start_date end_date _ _ _ Hans Hdates).
    cbn. apply runs_ret.
  - pose proof (main_completes server facility [] start_date end_date _
                  Hans Hdates (or_introl eq_refl) (List.Forall_nil _)) as Hrun.
    cbn in Hrun. rewrite app_nil_r in Hrun. apply Hrun.
Qed.

Lemma no_tours_requested_witness :
  let start_date := mk_datetime 2024 2 28 in
  let end_date := mk_datetime 2024 3 1 in
  valid start_date /\ valid end_date /\
  Forall (answered bare_server 7) (months_of start_date end_date) /\
  main bare_server 7 [] start_date end_date w0 =
    (Ok 1,
     mk_world [monthly_query 7 (mk_datetime 2024 2 1);
               monthly_query 7 (mk_datetime 2024 3 1)] []).
Proof.
  cbv zeta.
  assert (Hs : valid (mk_datetime 2024 2 28)) by (vm_compute; intuition discriminate).
  assert (He : valid (mk_datetime 2024 3 1)) by (vm_compute; intuition discriminate).
  assert (Hans : Forall (answered bare_server 7)
                   (months_of (mk_datetime 2024 2 28) (mk_datetime 2024 3 1))).
  { replace (months_of _ _) with [mk_datetime 2024 2 1; mk_datetime 2024 3 1]
      by (vm_compute; reflexivity).
    repeat constructor; eexists; vm_compute; reflexivity. }
  split; [exact Hs|]. split; [exact He|]. split; [exact Hans|].
  rewrite (proj2 (no_tours_requested bare_server 7 _ _ w0 Hs He Hans)).
  vm_compute. reflexivity.
Defined.

(** ** How a run ends (lines 104-115, 158-164) *)

Lemma script_raises server facility tours start_date end_date e t o w :
  runs (main server facility tours start_date end_date) (Raise e) t o ->
  let run := script server facility tours start_date end_date w in
  fst run = Uncaught e /\ issued w (snd run) = t /\
  exit_status (fst run) = 1 /\
  last (stdout (snd run)) = Some "Something went wrong".
Proof.
  intros Hrun. cbv zeta. rewrite (script_run _ _ _ _ _ _ _ _ Hrun w).
  cbn [fst snd]. rewrite issued_extend. repeat split.
  unfold extend. cbn [stdout]. by rewrite !app_assoc, last_snoc.
Qed.

(** X10. The first stage that fails decides how a run ends.  For valid
    dates and a list of tours: a monthly query that is not answered ends
    the run with its error, whatever the later months, the snapshot and
    the names would give; with every month answered and a tour
    requested, the earliest date of the range absent from the snapshot
    ends it with [KeyError] for that date, whatever the names; with
    every month answered and every date present, the first requested
    tour without a name ends it with the error of its lookup.  Each
    time the exception reaches the interpreter, the status is 1 and the
    last line printed is the script's notice. *)
Theorem first_failure_decides server facility tours start_date end_date w :
  valid start_date -> valid end_date ->
  let run := script server facility tours start_date end_date w in
  let ended e reqs :=
    fst run = Uncaught e /\ issued w (snd run) = reqs /\
    exit_status (fst run) = 1 /\
    last (stdout (snd run)) = Some "Something went wrong" in
  (forall pre m rest,
     months_of start_date end_date = pre ++ m :: rest ->
     Forall (answered server facility) pre ->
     ~ answered server facility m ->
     ended (fetch_error server facility m)
       (map (monthly_query facility) (pre ++ [m]))) /\
  (Forall (answered server facility) (months_of start_date end_date) ->
   tours <> [] ->
   forall d, in_range start_date end_date d ->
     snapshot server facility (months_of start_date end_date) ∅ !! strftime d
       = None ->
     (forall d', in_range start_date end_date d' -> dt_lt d' d ->
        present (snapshot server facility (months_of start_date end_date) ∅) d') ->
     ended (KeyError (strftime d))
       (map (monthly_query facility) (months_of start_date end_date))) /\
  (Forall (answered server facility) (months_of start_date end_date) ->
   (forall d, in_range start_date end_date d ->
      present (snapshot server facility (months_of start_date end_date) ∅) d) ->
   forall pre t rest,
     first_occurrences tours = pre ++ t :: rest ->
     Forall (name_known server) pre ->
     ~ name_known server t ->
     ended (name_error server t)
       (map (monthly_query facility) (months_of start_date end_date)
        ++ map name_query (pre ++ [t]))).
Proof.
  intros Hs He. cbv zeta.
  set (api := snapshot server facility (months_of start_date end_date) ∅).
  destruct (desired_dates start_date end_date) as [dates|e] eqn:Hdates;
    [|by rewrite desired_dates_spec in Hdates].
  pose proof (fun d => in_desired_dates _ _ dates d Hs He Hdates) as Hin.
  split; [|split].
  - intros pre m rest Hm Hpre Hno. eapply script_raises.
    unfold main. apply runs_bind_raise. by eapply resolver_fetch_fails.
  - intros Hans Htours d Hd Habs Hearlier.
    destruct tours as [|t tours']; [done|].
    apply Hin, in_split in Hd as (pre & rest & ->).
    destruct (desired_dates_sorted _ _ _ Hs He Hdates) as [Hsorted _].
    apply StronglySorted_app_inv in Hsorted as (_ & Hlt & _).
    assert (Hpre : Forall (present api) pre).
    { rewrite Forall_forall in Hlt. apply Forall_forall. intros d' Hd'.
      apply Hearlier; [|by apply Hlt].
      apply Hin, in_app_iff. left. by apply list_elem_of_In. }
    eapply script_raises. unfold main. apply runs_bind_raise.
    eapply resolver_missing_date; eassumption.
  - intros Hans Hpresent pre t rest Hocc Hpre Hno.
    assert (Hp : Forall (present api) dates).
    { apply Forall_forall. intros d Hd%list_elem_of_In. by apply Hpresent, Hin. }
    pose proof (resolver_projects server facility tours start_date end_date dates
                  _ _ Hans Hdates
                  (projection_returns facility api dates tours (or_intror Hp)))
      as Hres.
    assert (Hav : resolved api dates tours
                  = map (fun t => (t, available_dates api t dates)) pre
                    ++ (t, available_dates api t dates)
                    :: map (fun t => (t, available_dates api t dates)) rest).
    { unfold resolved. by rewrite Hocc, map_app. }
    assert (Hknown : Forall (fun item : Z * list string => name_known server (fst item))
                       (map (fun t => (t, available_dates api t dates)) pre))
      by (by apply Forall_map).
    pose proof (render_unknown server _ t (available_dates api t dates)
                  (map (fun t => (t, available_dates api t dates)) rest)
                  Hknown Hno) as Hrender.
    assert (Hk : map fst (map (fun t => (t, available_dates api t dates)) pre) = pre)
      by (rewrite map_map; cbn; apply map_id).
    rewrite <- Hav, Hk in Hrender.
    rewrite map_app. cbn [map].
    eapply script_raises. unfold main.
    eapply runs_bind_ok; [exact Hres|].
    apply runs_bind_raise. exact Hrender.
Qed.

Lemma first_failure_decides_witness :
  let start_date := mk_datetime 2024 3 1 in
  let end_date := mk_datetime 2024 3 2 in
  let run := script sample_server 7 [100; 300] start_date end_date w0 in
  valid start_date /\ valid end_date /\
  Forall (answered sample_server 7) (months_of start_date end_date) /\
  (forall d, in_range start_date end_date d ->
     present (snapshot sample_server 7 (months_of start_date end_date) ∅) d) /\
  first_occurrences [100; 300] = [100] ++ 300 :: [] /\
  Forall (name_known sample_server) [100] /\
  ~ name_known sample_server 300 /\
  fst run = Uncaught (name_error sample_server 300) /\
  issued w0 (snd run)
  = [monthly_query 7 (mk_datetime 2024 3 1); name_query 100; name_query 300] /\
  exit_status (fst run) = 1 /\
  last (stdout (snd run)) = Some "Something went wrong".
Proof.
  cbv zeta.
  assert (Hs : valid (mk_datetime 2024 3 1)) by (vm_compute; intuition discriminate).
  assert (He : valid (mk_datetime 2024 3 2)) by (vm_compute; intuition discriminate).
  assert (Hdates : desired_dates (mk_datetime 2024 3 1) (mk_datetime 2024 3 2)
                   = Ok [mk_datetime 2024 3 1; mk_datetime 2024 3 2])
    by (vm_compute; reflexivity).
  assert (Hans : Forall (answered sample_server 7)
                   (months_of (mk_datetime 2024 3 1) (mk_datetime 2024 3 2))).
  { replace (months_of _ _) with [mk_datetime 2024 3 1] by (vm_compute; reflexivity).
    repeat constructor. eexists. vm_compute. reflexivity. }
  assert (Hpresent : forall d,
            in_range (mk_datetime 2024 3 1) (mk_datetime 2024 3 2) d ->
            present (snapshot sample_server 7
                       (months_of (mk_datetime 2024 3 1) (mk_datetime 2024 3 2)) ∅) d).
  { intros d Hd. apply (in_desired_dates _ _ _ _ Hs He Hdates) in Hd.
    destruct Hd as [<- | [<- | []]]; eexists; vm_compute; reflexivity. }
  assert (Hocc : first_occurrences [100; 300] = [100] ++ 300 :: [])
    by (vm_compute; reflexivity).
  assert (Hknown : Forall (name_known sample_server) [100]).
  { repeat constructor. eexists. vm_compute. reflexivity. }
  assert (Hno : ~ name_known sample_server 300).
  { intros [H _]. vm_compute in H. discriminate H. }
  split; [exact Hs|]. split; [exact He|]. split; [exact Hans|].
  split; [exact Hpresent|]. split; [exact Hocc|]. split; [exact Hknown|].
  split; [exact Hno|].
  exact (proj2 (proj2 (first_failure_decides sample_server 7 [100; 300] _ _ w0 Hs He))
           Hans Hpresent [100] 300 [] Hocc Hknown Hno).
Defined.

(** ** Dates on the command line (lines 118-123) *)

Ltac cases_of H := vm_compute in H; repeat (destruct H as [<- | H]); try destruct H.

Lemma digit_values n : 0 <= n <= 9 -> In n (seqZ 0 10).
Proof. intros H. apply In_seqZ. lia. Qed.

Ltac each_digit n H := apply digit_values in H; cases_of H.

Lemma is_digit_digit n : 0 <= n <= 9 -> is_digit (digit n) = true.
Proof. intros H. each_digit n H; reflexivity. Qed.

Lemma code_digit n : 0 <= n <= 9 -> Z.of_N (N_of_ascii (digit n)) - 48 = n.
Proof. intros H. each_digit n H; reflexivity. Qed.

Lemma digit_not_blank n : 0 <= n <= 9 -> Ascii.eqb (digit n) " " = false.
Proof. intros H. each_digit n H; reflexivity. Qed.

Lemma int_zpad2 n : 0 <= n <= 99 -> int (zpad2 n) = n.
Proof.
  intros H. unfold int, zpad2.
  rewrite digit_not_blank by (Z.div_mod_to_equations; lia).
  cbn [int_digits].
  rewrite !code_digit by (Z.div_mod_to_equations; lia).
  Z.div_mod_to_equations; lia.
Qed.

Lemma int_zpad4 y : 0 <= y <= 9999 -> int (zpad4 y) = y.
Proof.
  intros H. rewrite zpad4_chars. unfold int.
  rewrite digit_not_blank by (Z.div_mod_to_equations; lia).
  cbn [int_digits].
  rewrite !code_digit by (Z.div_mod_to_equations; lia).
  Z.div_mod_to_equations; lia.
Qed.

Lemma digit_of_code c :
  (48 <= N_of_ascii c <= 57)%N -> c = digit (Z.of_N (N_of_ascii c) - 48).
Proof.
  intros H. unfold digit, ascii_of_nat.
  replace (N.of_nat (48 + Z.to_nat (Z.of_N (N_of_ascii c) - 48))) with (N_of_ascii c)
    by lia.
  by rewrite ascii_N_embedding.
Qed.

Lemma in_class_digit lo hi c :
  in_class lo hi c = true ->
  (48 <= N_of_ascii lo)%N -> (N_of_ascii hi <= 57)%N ->
  exists n, Z.of_N (N_of_ascii lo) - 48 <= n <= Z.of_N (N_of_ascii hi) - 48 /\
            c = digit n.
Proof.
  unfold in_class. intros H Hlo Hhi.
  apply andb_true_iff in H as [H1%N.leb_le H2%N.leb_le].
  exists (Z.of_N (N_of_ascii c) - 48). split; [lia|].
  apply digit_of_code. lia.
Qed.

Lemma is_digit_inv c : is_digit c = true -> exists n, 0 <= n <= 9 /\ c = digit n.
Proof.
  intros H. apply (in_class_digit "0" "9") in H as (n & Hn & ->).
  - exists n. split; [|done]. cbn in Hn. lia.
  - cbn. lia.
  - cbn. lia.
Qed.

Lemma alternation_sound {A} alts (k : string -> string -> option A) s r :
  alternation alts k s = Some r ->
  exists a text rest, In a alts /\ a s = Some (text, rest) /\ k text rest = Some r.
Proof.
  induction alts as [|a alts IH]; cbn; [done|].
  destruct (a s) as [[text rest]|] eqn:Ha.
  - destruct (k text rest) as [r'|] eqn:Hk.
    + intros [= ->]. exists a, text, rest. by repeat split; try left.
    + intros (a' & t' & r'' & Hin & H1 & H2)%IH. exists a', t', r''. auto.
  - intros (a' & t' & r'' & Hin & H1 & H2)%IH. exists a', t', r''. auto.
Qed.

Lemma month_values m : 1 <= m <= 12 -> In m (seqZ 1 12).
Proof. intros H. apply In_seqZ. lia. Qed.

Lemma day_values d : 1 <= d <= 31 -> In d (seqZ 1 31).
Proof. intros H. apply In_seqZ. lia. Qed.

Lemma int_month_spelling m M :
  1 <= m <= 12 -> In M (month_spellings m) -> int M = m.
Proof.
  intros Hm%month_values HM. cases_of Hm; cases_of HM; reflexivity.
Qed.

Lemma int_day_spelling d D :
  1 <= d <= 31 -> In D (day_spellings d) -> int D = d.
Proof.
  intros Hd%day_values HD. cases_of Hd; cases_of HD; reflexivity.
Qed.

Lemma group_d_spelling {A} (k : string -> string -> option A) d D r :
  1 <= d <= 31 -> In D (day_spellings d) ->
  k D "" = Some r -> alternation group_d k D = Some r.
Proof.
  intros Hd%day_values HD Hk.
  cases_of Hd; cases_of HD; vm_compute; vm_compute in Hk; by rewrite Hk.
Qed.

Lemma group_m_spelling {A} (k : string -> string -> option A) m M tail r :
  1 <= m <= 12 -> In M (month_spellings m) ->
  k M tail = Some r ->
  alternation group_m (fun M0 => literal "-" (k M0)) (M +:+ "-" +:+ tail) = Some r.
Proof.
  intros Hm%month_values HM Hk.
  cases_of Hm; cases_of HM; vm_compute; vm_compute in Hk; by rewrite Hk.
Qed.

Lemma format_regex_spelling y m d M D :
  0 <= y <= 9999 -> 1 <= m <= 12 -> 1 <= d <= 31 ->
  In M (month_spellings m) -> In D (day_spellings d) ->
  format_regex (zpad4 y +:+ "-" +:+ M +:+ "-" +:+ D) = Some (zpad4 y, M, D, "").
Proof.
  intros Hy Hm Hd HM HD. rewrite zpad4_app. unfold format_regex, group_Y.
  rewrite !is_digit_digit by (Z.div_mod_to_equations; lia). cbn [andb].
  rewrite <- zpad4_chars.
  change ("-" +:+ M +:+ "-" +:+ D) with (String "-" (M +:+ "-" +:+ D)).
  unfold literal at 1. cbn [Ascii.eqb Bool.eqb].
  apply (group_m_spelling
           (fun M0 => alternation group_d (fun D0 rest => Some (zpad4 y, M0, D0, rest)))
           m M D _ Hm HM).
  by apply (group_d_spelling _ d D _ Hd HD).
Qed.

Lemma datetime_new_valid y m d :
  datetime_new y m d = Some (mk_datetime y m d) <-> valid (mk_datetime y m d).
Proof.
  unfold datetime_new, valid. cbn [year month day].
  destruct (_ && _) eqn:E.
  - repeat (apply andb_true_iff in E as [E ?]). split; [intros _; lia | done].
  - split; [done|]. intros H. exfalso.
    repeat (apply andb_false_iff in E as [E | E]); lia.
Qed.

Lemma strptime_spelling d s :
  valid d -> In s (spellings d) -> strptime s = Some d.
Proof.
  intros Hv Hs. unfold spellings in Hs.
  apply in_flat_map in Hs as (M & HM & Hs). apply in_map_iff in Hs as (D & <- & HD).
  pose proof Hv as (Hy & Hm & Hd). unfold MINYEAR, MAXYEAR in Hy.
  pose proof (month_end_bound (year d) (month d) Hm) as (_ & Hdim & _).
  unfold strptime.
  rewrite (format_regex_spelling (year d) (month d) (day d)) by (done || lia).
  rewrite int_zpad4 by lia.
  rewrite (int_month_spelling (month d)) by done.
  rewrite (int_day_spelling (day d)) by (done || lia).
  destruct d as [y m dd]. by apply datetime_new_valid.
Qed.

Lemma string_app_nil_r s : s +:+ "" = s.
Proof.
  induction s as [|c s IH]; [reflexivity|].
  change (String c (s +:+ "") = String c s). by rewrite IH.
Qed.

Lemma two_inv p1 p2 s text rest :
  two p1 p2 s = Some (text, rest) ->
  exists c1 c2, s = String c1 (String c2 rest) /\
    text = String c1 (String c2 "") /\ p1 c1 = true /\ p2 c2 = true.
Proof.
  unfold two. destruct s as [|c1 [|c2 s]]; [done..|].
  destruct (p1 c1) eqn:H1; destruct (p2 c2) eqn:H2; cbn; try done.
  intros [= <- <-]. by exists c1, c2.
Qed.

Lemma one_inv p s text rest :
  one p s = Some (text, rest) ->
  exists c, s = String c rest /\ text = String c "" /\ p c = true.
Proof.
  unfold one. destruct s as [|c s]; [done|].
  destruct (p c) eqn:H; [|done]. intros [= <- <-]. by exists c.
Qed.

Lemma class_inv lo hi c a b :
  in_class lo hi c = true ->
  Z.of_N (N_of_ascii lo) = 48 + a -> Z.of_N (N_of_ascii hi) = 48 + b ->
  0 <= a -> b <= 9 ->
  exists n, c = digit n /\ In n (seqZ a (b - a + 1)).
Proof.
  unfold in_class. intros H Hlo Hhi Ha Hb.
  apply andb_true_iff in H as [H1%N.leb_le H2%N.leb_le].
  exists (Z.of_N (N_of_ascii c) - 48).
  split; [apply digit_of_code; lia | apply In_seqZ; lia].
Qed.

Tactic Notation "class_cases" hyp(H) constr(a) constr(b) ident(n) :=
  apply (class_inv _ _ _ a b) in H as (n & -> & H); [|reflexivity|reflexivity|lia|lia].

Lemma group_m_inv a s M rest :
  In a group_m -> a s = Some (M, rest) ->
  s = M +:+ rest /\ exists m, 1 <= m <= 12 /\ In M (month_spellings m).
Proof.
  intros [<- | [<- | [<- | []]]] H.
  - apply two_inv in H as (c1 & c2 & -> & -> & <-%Ascii.eqb_eq & H2).
    split; [done|]. class_cases H2 0 2 n2. exists (10 + n2).
    cases_of H2; (split; [lia | by left]).
  - apply two_inv in H as (c1 & c2 & -> & -> & <-%Ascii.eqb_eq & H2).
    split; [done|]. class_cases H2 1 9 n2. exists n2.
    cases_of H2; (split; [lia | by left]).
  - apply one_inv in H as (c & -> & -> & H).
    split; [done|]. class_cases H 1 9 n. exists n.
    cases_of H; (split; [lia | right; by left]).
Qed.

Lemma group_d_inv a s D rest :
  In a group_d -> a s = Some (D, rest) ->
  s = D +:+ rest /\ exists d, 1 <= d <= 31 /\ In D (day_spellings d).
Proof.
  intros [<- | [<- | [<- | [<- | [<- | []]]]]] H.
  - apply two_inv in H as (c1 & c2 & -> & -> & <-%Ascii.eqb_eq & H2).
    split; [done|]. class_cases H2 0 1 n2. exists (30 + n2).
    cases_of H2; (split; [lia | by left]).
  - apply two_inv in H as (c1 & c2 & -> & -> & H1 & H2).
    split; [done|]. class_cases H1 1 2 n1.
    change (is_digit c2) with (in_class "0" "9" c2) in H2. class_cases H2 0 9 n2.
    exists (10 * n1 + n2).
    cases_of H1; cases_of H2; (split; [lia | by left]).
  - apply two_inv in H as (c1 & c2 & -> & -> & <-%Ascii.eqb_eq & H2).
    split; [done|]. class_cases H2 1 9 n2. exists n2.
    cases_of H2; (split; [lia | by left]).
  - apply one_inv in H as (c & -> & -> & H).
    split; [done|]. class_cases H 1 9 n. exists n.
    cases_of H; (split; [lia | right; by left]).
  - apply two_inv in H as (c1 & c2 & -> & -> & <-%Ascii.eqb_eq & H2).
    split; [done|]. class_cases H2 1 9 n2. exists n2.
    cases_of H2; (split; [lia | right; right; by left]).
Qed.

Lemma format_regex_inv s Y M D rest :
  format_regex s = Some (Y, M, D, rest) ->
  exists y m d, 0 <= y <= 9999 /\ 1 <= m <= 12 /\ 1 <= d <= 31 /\
    Y = zpad4 y /\ In M (month_spellings m) /\ In D (day_spellings d) /\
    s = Y +:+ "-" +:+ M +:+ "-" +:+ D +:+ rest.
Proof.
  unfold format_regex, group_Y.
  destruct s as [|a [|b [|c [|e s]]]]; [done..|].
  destruct (is_digit a) eqn:Ha; [|done]. destruct (is_digit b) eqn:Hb; [|done].
  destruct (is_digit c) eqn:Hc; [|done]. destruct (is_digit e) eqn:He; [|done].
  cbn [andb].
  apply is_digit_inv in Ha as (na & Hna & ->). apply is_digit_inv in Hb as (nb & Hnb & ->).
  apply is_digit_inv in Hc as (nc & Hnc & ->). apply is_digit_inv in He as (ne & Hne & ->).
  unfold literal at 1. destruct s as [|h s]; [done|].
  destruct (Ascii.eqb "-" h) eqn:Hh; [|done]. apply Ascii.eqb_eq in Hh as <-.
  intros (am & M' & s1 & Ham & Hm & Hk)%alternation_sound.
  apply group_m_inv in Hm as (-> & m & Hmr & HM); [|done].
  unfold literal in Hk. destruct s1 as [|h s1]; [done|].
  destruct (Ascii.eqb "-" h) eqn:Hh; [|done]. apply Ascii.eqb_eq in Hh as <-.
  apply alternation_sound in Hk as (ad & D' & s2 & Had & Hd & [= <- <- <- <-]).
  apply group_d_inv in Hd as (-> & d & Hdr & HD); [|done].
  exists (1000 * na + 100 * nb + 10 * nc + ne), m, d.
  split; [lia|]. split; [done|]. split; [done|].
  assert (HY : String (digit na) (String (digit nb) (String (digit nc)
                 (String (digit ne) "")))
               = zpad4 (1000 * na + 100 * nb + 10 * nc + ne)).
  { rewrite zpad4_chars. repeat f_equal; Z.div_mod_to_equations; lia. }
  split; [done|]. split; [done|]. split; [done|]. reflexivity.
Qed.

Lemma strptime_inv s d :
  strptime s = Some d -> valid d /\ In s (spellings d).
Proof.
  unfold strptime.
  destruct (format_regex s) as [[[[Y M] D] rest]|] eqn:Hre; [|done].
  destruct rest; [|done].
  apply format_regex_inv in Hre as (y & m & dd & Hy & Hm & Hd & -> & HM & HD & ->).
  rewrite int_zpad4, (int_month_spelling m), (int_day_spelling dd) by done.
  unfold datetime_new. destruct (_ && _) eqn:E; [|done]. intros [= <-].
  split.
  - apply datetime_new_valid. unfold datetime_new. by rewrite E.
  - unfold spellings. cbn [year month day]. apply in_flat_map. exists M.
    split; [done|]. apply in_map_iff. exists D. split; [|done].
    by rewrite string_app_nil_r.
Qed.

Lemma format_regex_short_year y m d :
  1 <= y <= 999 ->
  format_regex (str y +:+ "-" +:+ zpad2 m +:+ "-" +:+ zpad2 d) = None.
Proof.
  intros Hy. unfold format_regex, group_Y, zpad2.
  destruct (str_year_short y Hy) as [-> | [-> | ->]]; cbv [append];
    change (is_digit "-") with false;
    repeat (rewrite andb_false_r || cbn [andb]); reflexivity.
Qed.

(** X13. From year 1000 on, formatting and parsing are inverse: the
    string the program builds for a valid date, as it is used for the
    keys of the snapshot and in the returned lists, is accepted by
    [valid_date] and parsed back to that date.  For a valid date of a
    year below 1000 the string carries fewer than four year digits and
    [valid_date] rejects it. *)
Theorem valid_date_strftime d :
  valid d ->
  (1000 <= year d -> valid_date (strftime d) = Accepted d) /\
  (year d < 1000 ->
   valid_date (strftime d)
   = ArgumentTypeError ("Not a valid date: '" +:+ strftime d +:+ "'.")).
Proof.
  intros Hd. unfold valid_date. split.
  - intros Hy. rewrite (strptime_spelling d (strftime d) Hd); [done|].
    rewrite strftime_iso by done.
    unfold spellings, month_spellings, day_spellings, iso_date. cbn [flat_map map].
    apply in_app_iff. left. by left.
  - intros Hy. destruct Hd as ([Hy1 _] & _). unfold MINYEAR in Hy1.
    unfold strptime, strftime at 1.
    by rewrite format_regex_short_year by lia.
Qed.

Lemma valid_date_strftime_witness :
  valid (mk_datetime 2024 2 29) /\
  strftime (mk_datetime 2024 2 29) = "2024-02-29" /\
  valid_date "2024-02-29" = Accepted (mk_datetime 2024 2 29) /\
  valid (mk_datetime 999 12 31) /\
  strftime (mk_datetime 999 12 31) = "999-12-31" /\
  valid_date "999-12-31" = ArgumentTypeError "Not a valid date: '999-12-31'.".
Proof.
  assert (Hd : valid (mk_datetime 2024 2 29)) by (vm_compute; intuition discriminate).
  assert (He : valid (mk_datetime 999 12 31)) by (vm_compute; intuition discriminate).
  assert (E1 : strftime (mk_datetime 2024 2 29) = "2024-02-29")
    by (vm_compute; reflexivity).
  assert (E2 : strftime (mk_datetime 999 12 31) = "999-12-31")
    by (vm_compute; reflexivity).
  split; [exact Hd|]. split; [exact E1|].
  split; [rewrite <- E1; apply (valid_date_strftime _ Hd); cbn; lia|].
  split; [exact He|]. split; [exact E2|].
  rewrite <- E2 at 1. rewrite (proj2 (valid_date_strftime _ He)) by (cbn; lia).
  by rewrite E2.
Defined.

(** X14. What [valid_date] accepts, for input made of characters with
    code below 256: a string is accepted as a date exactly when the date
    exists in the calendar (year 1 to 9999) and the string is the year
    on four digits, a hyphen, the month, a hyphen and the day, where a
    month or day below 10 may drop its leading zero and a day below 10
    may have a blank in place of it.  Every other string is rejected
    with [ArgumentTypeError] and the message quoting the input. *)
Theorem valid_date_accepts_exactly s :
  (forall d, valid_date s = Accepted d <-> valid d /\ In s (spellings d)) /\
  ((forall d, valid d -> ~ In s (spellings d)) ->
   valid_date s = ArgumentTypeError ("Not a valid date: '" +:+ s +:+ "'.")).
Proof.
  unfold valid_date. split.
  - intros d. split.
    + destruct (strptime s) as [d'|] eqn:Hp; [|done]. intros [= ->].
      by apply strptime_inv.
    + intros [Hd Hs]. by rewrite (strptime_spelling d s Hd Hs).
  - intros Hno. destruct (strptime s) as [d|] eqn:Hp; [|done].
    apply strptime_inv in Hp as [Hd Hs]. by destruct (Hno d Hd).
Qed.

Lemma valid_date_accepts_exactly_witness :
  valid_date "2024-3- 5" = Accepted (mk_datetime 2024 3 5) /\
  valid (mk_datetime 2024 3 5) /\
  In "2024-3- 5" (spellings (mk_datetime 2024 3 5)) /\
  valid_date "2023-02-29" = ArgumentTypeError "Not a valid date: '2023-02-29'.".
Proof.
  assert (H : valid_date "2024-3- 5" = Accepted (mk_datetime 2024 3 5))
    by (vm_compute; reflexivity).
  split; [exact H|].
  split; [exact (proj1 (proj1 (proj1 (valid_date_accepts_exactly _) _) H))|].
  split; [exact (proj2 (proj1 (proj1 (valid_date_accepts_exactly _) _) H))|].
  vm_compute. reflexivity.
Defined.
